(** * MIPROv2Plus.compile and the Langfuse tracing callback

    A shallow embedding of the two Python sources of the repository,

    - [src/testing/tracing.py]  (class [LangfuseCallback]), and
    - [src/dspy/teleprompt/mipro_optimizer_v2_plus.py]
      (class [MIPROv2Plus], method [compile]),

    followed by the properties of the written specification that are
    decided by them.  Python dictionaries are finite maps, Python objects
    live in a store addressed by locations, and every call that leaves the
    modelled function (to the Langfuse client, to the inherited optimizer
    methods) is recorded in a trace of events. *)

From Stdlib Require Import ZArith QArith.
From stdpp Require Import base option list gmap strings pretty.

Local Open Scope string_scope.
Local Open Scope list_scope.

(** Python exceptions that the modelled code raises itself. *)
Inductive Exception :=
  | ValueError (msg : string)
  | KeyError (key : string)
  | ConfigurationError (msg : string)
  | OtherError (msg : string).

(** [str(exception)].  The string of a [KeyError] is the [repr] of the
    missing key, which for a key that needs no escaping is the key
    between single quotes. *)
Definition str (e : Exception) : string :=
  match e with
  | KeyError k => "'" ++ k ++ "'"
  | ValueError m | ConfigurationError m | OtherError m => m
  end.

(** ** [src/testing/tracing.py] *)

Module Tracing.

(** Values that travel through the callback as [inputs] and [outputs]:
    opaque payloads, and objects that carry a [_store] attribute (dspy
    predictions). *)
Inductive Any :=
  | Payload (repr : string)
  | WithStore (_store : string).

(** [outputs._store if hasattr(outputs, "_store") else outputs]
    (lines 99-102); [None] has no [_store]. *)
Definition unwrap_store (outputs : option Any) : option string :=
  match outputs with
  | Some (WithStore s) => Some s
  | Some (Payload r) => Some r
  | None => None
  end.

(** What the handlers read from [instance]: [instance.__class__.__name__]
    and, for a language model, [instance.model]. *)
Record Instance := { class_name : string; model : string }.

(** Stateful clients handed out by the Langfuse SDK, named by the [id]
    they were created with. *)
Inductive Client :=
  | TraceClient (id : string)
  | SpanClient (id : string)
  | GenerationClient (id : string).

(** Requests received by the Langfuse SDK, in the order they are made. *)
Inductive Request :=
  | trace (name id session_id input : string)
  | span (parent : Client) (name id input : string)
  | generation (parent : Client) (name id input model : string)
  | end_ (observation : Client) (output : option string)
         (level : string) (status_message : option string)
  | update (tr : Client) (output : option string).

(** The callback object: [self.session_id], [self.traces],
    [self.observations], and the requests [self.langfuse] has received. *)
Record LangfuseCallback := {
  session_id : string;
  traces : gmap string Client;
  observations : gmap string Client;
  langfuse : list Request
}.

Definition send (r : Request) (self : LangfuseCallback) : LangfuseCallback :=
  {| session_id := session_id self; traces := traces self;
     observations := observations self; langfuse := langfuse self ++ [r] |}.

Definition set_trace (k : string) (c : Client) (self : LangfuseCallback) :=
  {| session_id := session_id self; traces := <[k := c]> (traces self);
     observations := observations self; langfuse := langfuse self |}.

Definition set_observation (k : string) (c : Client) (self : LangfuseCallback) :=
  {| session_id := session_id self; traces := traces self;
     observations := <[k := c]> (observations self);
     langfuse := langfuse self |}.

Definition pop_trace (k : string) (self : LangfuseCallback) :=
  {| session_id := session_id self; traces := delete k (traces self);
     observations := observations self; langfuse := langfuse self |}.

Definition pop_observation (k : string) (self : LangfuseCallback) :=
  {| session_id := session_id self; traces := traces self;
     observations := delete k (observations self);
     langfuse := langfuse self |}.

(** [dict.get(key)] with the key read from [ACTIVE_CALL_ID], which is
    [None] outside of any call. *)
Definition get (d : gmap string Client) (key : option string) : option Client :=
  key ≫= (d !!.).

(** [a or b] on two optional clients; a client object is always truthy. *)
Definition or_client (a b : option Client) : option Client :=
  match a with Some _ => a | None => b end.

(** [_get_observation_status] (lines 37-44).  Exception objects are
    truthy, so [if exception] tests for [None]. *)
Definition _get_observation_status (exception : option Exception)
  : string * option string :=
  match exception with
  | Some e => ("ERROR", Some (str e))
  | None => ("DEFAULT", None)
  end.

(** [on_module_start] (lines 46-80).  [active_call_id] is the value of
    [ACTIVE_CALL_ID.get()]. *)
Definition on_module_start (self : LangfuseCallback)
    (active_call_id : option string)
    (call_id : string) (instance : Instance) (inputs : string)
  : LangfuseCallback :=
  let parent_call_id := active_call_id in
  let parent_trace := get (traces self) parent_call_id in
  let parent_observation := get (observations self) parent_call_id in
  match parent_trace, parent_observation with
  | None, None =>
      let self := send (trace (class_name instance) call_id
                              (session_id self) inputs) self in
      set_trace call_id (TraceClient call_id) self
  | _, _ =>
      match or_client parent_observation parent_trace with
      | Some parent =>
          let self := send (span parent (class_name instance)
                                 ("span-" ++ call_id) inputs) self in
          set_observation call_id (SpanClient ("span-" ++ call_id)) self
      | None => self (* not reached: one of the two is not None *)
      end
  end.

(** [on_module_end] (lines 83-117).  The result is the callback after the
    call and the exception the call raised, if any ([dict.pop] of a
    missing key raises [KeyError]). *)
Definition on_module_end (self : LangfuseCallback)
    (call_id : string) (outputs : option Any) (exception : option Exception)
  : LangfuseCallback * option Exception :=
  let '(level, status_message) := _get_observation_status exception in
  let output := unwrap_store outputs in
  match observations self !! call_id with
  | Some observation =>
      (* Nested module is done *)
      let self := pop_observation call_id self in
      (send (end_ observation output level status_message) self, None)
  | None =>
      (* Top-level module is done *)
      match traces self !! call_id with
      | Some tr =>
          let self := pop_trace call_id self in
          (send (update tr output) self, None)
      | None => (self, Some (KeyError call_id))
      end
  end.

(** [on_lm_start] (lines 121-156). *)
Definition on_lm_start (self : LangfuseCallback)
    (active_call_id : option string)
    (call_id : string) (instance : Instance) (inputs : string)
  : LangfuseCallback :=
  let parent_call_id := active_call_id in
  let parent_trace := get (traces self) parent_call_id in
  let parent_observation := get (observations self) parent_call_id in
  let '(self, parent_trace) :=
    match parent_trace, parent_observation with
    | None, None =>
        let self := send (trace (class_name instance) call_id
                                (session_id self) inputs) self in
        (set_trace call_id (TraceClient call_id) self,
         Some (TraceClient call_id))
    | _, _ => (self, parent_trace)
    end in
  match or_client parent_observation parent_trace with
  | Some parent =>
      let self := send (generation parent (class_name instance)
                          ("generation-" ++ call_id) inputs
                          (model instance)) self in
      set_observation call_id (GenerationClient ("generation-" ++ call_id)) self
  | None => self
  end.

(** [on_lm_end] (lines 158-184).  The outputs of a language model call
    are passed on as they are. *)
Definition on_lm_end (self : LangfuseCallback)
    (call_id : string) (outputs : option string) (exception : option Exception)
  : LangfuseCallback * option Exception :=
  let '(level, status_message) := _get_observation_status exception in
  let self :=
    match traces self !! call_id with
    | Some tr => send (update tr outputs) (pop_trace call_id self)
    | None => self
    end in
  match observations self !! call_id with
  | Some observation =>
      let self := pop_observation call_id self in
      (send (end_ observation outputs level status_message) self, None)
  | None => (self, Some (KeyError call_id))
  end.

(** A callback as [__init__] leaves it (lines 33-35). *)
Definition init (session : string) : LangfuseCallback :=
  {| session_id := session; traces := ∅; observations := ∅; langfuse := [] |}.

End Tracing.

(** ** [src/dspy/teleprompt/mipro_optimizer_v2_plus.py] *)

Module Mipro.

(** *** Data *)

(** An example record: an input and the expected output. *)
Abbreviation Example := (string * string)%type.

(** A step of a program: its name, the instruction bound to it and the
    demonstrations bound to it. *)
Record Step := {
  step_name : string;
  instructions : string;
  demos : list Example
}.

(** A program is an ordered collection of steps.  Programs are Python
    objects: they live in a store and are passed around by location. *)
Abbreviation Program := (list Step).
Abbreviation loc := positive.
Abbreviation Heap := (gmap positive (list Step)).

Abbreviation DemoSet := (list (string * string)).
(** Per step, the ordered candidates. *)
Abbreviation InstructionCandidates := (list (list string)).
Abbreviation DemoCandidates := (list (list (list (string * string)))).

(** Per step, the chosen (instruction index, demo set index). *)
Abbreviation Assignment := (list (nat * nat)).

(** One evaluated assignment.  A failed evaluation has no score. *)
Record Trial := {
  assignment : Assignment;
  score : option Q;
  full_eval : bool
}.

(** [self.auto] *)
Inductive AutoMode := light | medium | heavy.

(** The [Evaluate] object built at lines 99-106.  The metric, the number
    of threads and the error budget come from the optimizer's fixed
    configuration; the object is told apart by its [devset]. *)
Record Evaluate := { devset : list Example }.

(** The keyword arguments of [compile] (lines 33-53). *)
Module Arg.
Record t := {
  student : loc;
  trainset : list Example;
  teacher : option loc;
  valset : option (list Example);
  num_trials : Z;
  max_bootstrapped_demos : option Z;
  max_labeled_demos : option Z;
  seed : option Z;
  minibatch : bool;
  minibatch_size : Z;
  minibatch_full_eval_steps : Z;
  program_aware_proposer : bool;
  data_aware_proposer : bool;
  view_data_batch_size : Z;
  tip_aware_proposer : bool;
  fewshot_aware_proposer : bool;
  requires_permission_to_run : bool
}.

(** The defaults of the signature. *)
Definition defaults (student : loc) (trainset : list Example) : t :=
  {| student := student; trainset := trainset; teacher := None;
     valset := None; num_trials := 30;
     max_bootstrapped_demos := None; max_labeled_demos := None;
     seed := None; minibatch := true; minibatch_size := 25;
     minibatch_full_eval_steps := 10;
     program_aware_proposer := true; data_aware_proposer := true;
     view_data_batch_size := 10; tip_aware_proposer := true;
     fewshot_aware_proposer := true; requires_permission_to_run := true |}.
End Arg.

(** The local variables of [compile] once lines 54-76 have run. *)
Module Var.
Record t := {
  seed : Z;
  trainset : list Example;
  valset : list Example;
  zeroshot_opt : bool;
  num_trials : Z;
  minibatch : bool
}.
End Var.

(** The optimizer object.  [rng] stands for the random state that
    [_set_random_seeds] installs and the inherited methods draw from. *)
Record MIPROv2Plus (Rng : Type) := {
  seed : Z;
  max_bootstrapped_demos : Z;
  max_labeled_demos : Z;
  auto : option AutoMode;
  rng : Rng
}.
Arguments seed {Rng} _.
Arguments max_bootstrapped_demos {Rng} _.
Arguments max_labeled_demos {Rng} _.
Arguments auto {Rng} _.
Arguments rng {Rng} _.

Definition set_rng {Rng} (r : Rng) (self : MIPROv2Plus Rng) : MIPROv2Plus Rng :=
  {| seed := seed self; max_bootstrapped_demos := max_bootstrapped_demos self;
     max_labeled_demos := max_labeled_demos self; auto := auto self; rng := r |}.

Definition set_max_bootstrapped_demos {Rng} (v : Z) (self : MIPROv2Plus Rng) :=
  {| seed := seed self; max_bootstrapped_demos := v;
     max_labeled_demos := max_labeled_demos self; auto := auto self;
     rng := rng self |}.

Definition set_max_labeled_demos {Rng} (v : Z) (self : MIPROv2Plus Rng) :=
  {| seed := seed self; max_bootstrapped_demos := max_bootstrapped_demos self;
     max_labeled_demos := v; auto := auto self; rng := rng self |}.

(** What [_optimize_prompt_parameters] hands back: the program it was
    given as it left it, the best program, and the trials it made. *)
Record Optimized := {
  program_after : Program;
  best_program : Program;
  trial_logs : list Trial
}.

(** *** The inherited methods

    [MIPROv2Plus] overrides [compile] only; the methods it calls on
    [self] belong to the base class [MIPROv2], whose source is not part
    of the files at hand.  They are the interface below.  A method reads
    the contents of the program it is given; the two methods that work on
    the copy may fail, and [_optimize_prompt_parameters] may also change
    the program it is given.  [_set_random_seeds] either installs a
    random state that the seed determines, or rejects the seed (the
    generators take seeds of a limited range only): it then raises, and
    leaves a random state that may depend on the one it found. *)
Class MIPROv2 (Rng : Type) := {
  _set_random_seeds : Z → Exception * (Rng → Rng) + Rng;
  _set_and_validate_datasets :
    list Example → option (list Example) →
    Exception + (list Example * list Example);
  _set_hyperparams_from_run_mode :
    option AutoMode → Rng →
    Program → Z → bool → bool → list Example →
    Rng * (Z * list Example * bool);
  _get_user_confirmation :
    Program → Z → bool → Z → Z → list Example → bool → bool;
  _propose_instructions :
    Rng → Program → list Example → option DemoCandidates →
    Z → bool → bool → bool → bool →
    Rng * (Exception + InstructionCandidates);
  _optimize_prompt_parameters :
    Rng → Program → InstructionCandidates → option DemoCandidates →
    Evaluate → list Example → Z → bool → Z → Z → Z →
    Rng * (Exception + Optimized)
}.

(** *** The run *)

Record World (Rng : Type) := {
  heap : Heap;
  self : MIPROv2Plus Rng
}.
Arguments heap {Rng} _.
Arguments self {Rng} _.

(** What a run of [compile] does that is visible from outside: the calls
    it makes, in order, with the arguments that matter below. *)
Inductive Event :=
  | Call_set_random_seeds (seed : Z)
  | Call_set_and_validate_datasets
  | Call_set_hyperparams_from_run_mode (program : loc) (zeroshot_opt : bool)
  | Call_print_auto_run_settings
  | Call_get_user_confirmation (program : loc)
  | Call_logger_info (msg : string)
  | Call_deepcopy (source copy : loc)
  | New_Evaluate (evaluate : Evaluate)
  | Call_propose_instructions (program : loc)
      (demo_candidates : option DemoCandidates)
  | Call_optimize_prompt_parameters (program : loc)
      (instruction_candidates : InstructionCandidates)
      (demo_candidates : option DemoCandidates)
      (evaluate : Evaluate) (seed : Z)
  | Trials (logs : list Trial).

Inductive Outcome :=
  | Return (program : loc)
  | Raise (e : Exception).

(** [a or b] for an optional integer [a]: [None] and [0] are falsy. *)
Definition or_int (a : option Z) (b : Z) : Z :=
  match a with
  | Some v => if (v =? 0)%Z then b else v
  | None => b
  end.

(** Modelled from the spec: [Module.deepcopy], of which only the call at
    line 98 is in the files at hand.  A deep copy is a new object that
    shares no state with the original and has the same steps. *)
Definition deepcopy (h : Heap) (source : loc) : Heap * loc :=
  let copy := fresh (dom h) in
  (<[copy := h !!! source]> h, copy).

(** Lines 54-76: seeds, per-call overrides of the demo limits, data sets
    and run mode.  A seed that [_set_random_seeds] rejects ends the call
    at line 56, before anything else is done. *)
Definition compile_setup {Rng} `{!MIPROv2 Rng} (w : World Rng) (a : Arg.t)
  : World Rng * list Event * (Exception + Var.t) :=
  let self := self w in
  (* Set random seeds *)
  let seed := or_int (Arg.seed a) (seed self) in
  match _set_random_seeds seed with
  | inl (e, leave) =>
      ({| heap := heap w; self := set_rng (leave (rng self)) self |},
       [Call_set_random_seeds seed],
       inl e)
  | inr r =>
      let self := set_rng r self in
      (* Update max demos if specified *)
      let self :=
        match Arg.max_bootstrapped_demos a with
        | Some v => set_max_bootstrapped_demos v self
        | None => self
        end in
      let self :=
        match Arg.max_labeled_demos a with
        | Some v => set_max_labeled_demos v self
        | None => self
        end in
      (* Set training & validation sets *)
      match _set_and_validate_datasets (Arg.trainset a) (Arg.valset a) with
      | inl e =>
          ({| heap := heap w; self := self |},
           [Call_set_random_seeds seed; Call_set_and_validate_datasets],
           inl e)
      | inr (trainset, valset) =>
          (* Set hyperparameters based on run mode (if set) *)
          let zeroshot_opt :=
            (max_bootstrapped_demos self =? 0)%Z
            && (max_labeled_demos self =? 0)%Z in
          let '(r, (num_trials, valset, minibatch)) :=
            _set_hyperparams_from_run_mode (auto self) (rng self)
              (heap w !!! Arg.student a) (Arg.num_trials a) (Arg.minibatch a)
              zeroshot_opt valset in
          let self := set_rng r self in
          ({| heap := heap w; self := self |},
           [Call_set_random_seeds seed; Call_set_and_validate_datasets;
            Call_set_hyperparams_from_run_mode (Arg.student a) zeroshot_opt]
           ++ match auto self with
              | Some _ => [Call_print_auto_run_settings]
              | None => []
              end,
           inr {| Var.seed := seed; Var.trainset := trainset;
                  Var.valset := valset; Var.zeroshot_opt := zeroshot_opt;
                  Var.num_trials := num_trials; Var.minibatch := minibatch |})
      end
  end.

(** Lines 97-148, for the demo candidates [demo_candidates] that Step 1
    produced. *)
Definition compile_optimize {Rng} `{!MIPROv2 Rng} (w : World Rng)
    (a : Arg.t) (v : Var.t) (demo_candidates : option DemoCandidates)
  : World Rng * list Event * Outcome :=
  (* Initialize program and evaluator *)
  let '(h, program) := deepcopy (heap w) (Arg.student a) in
  let evaluate := {| devset := Var.valset v |} in
  let evs := [Call_deepcopy (Arg.student a) program; New_Evaluate evaluate] in
  (* Step 2: Propose instruction candidates *)
  let '(r, proposed) :=
    _propose_instructions (rng (self w)) (h !!! program) (Var.trainset v)
      demo_candidates (Arg.view_data_batch_size a)
      (Arg.program_aware_proposer a) (Arg.data_aware_proposer a)
      (Arg.tip_aware_proposer a) (Arg.fewshot_aware_proposer a) in
  let evs := evs ++ [Call_propose_instructions program demo_candidates] in
  match proposed with
  | inl e => ({| heap := h; self := set_rng r (self w) |}, evs, Raise e)
  | inr instruction_candidates =>
      (* If zero-shot, discard demos *)
      let demo_candidates :=
        if Var.zeroshot_opt v then None else demo_candidates in
      (* Step 3: Find optimal prompt parameters *)
      let '(r, found) :=
        _optimize_prompt_parameters r (h !!! program)
          instruction_candidates demo_candidates evaluate (Var.valset v)
          (Var.num_trials v) (Var.minibatch v) (Arg.minibatch_size a)
          (Arg.minibatch_full_eval_steps a) (Var.seed v) in
      let evs :=
        evs ++ [Call_optimize_prompt_parameters program
                  instruction_candidates demo_candidates evaluate
                  (Var.seed v)] in
      match found with
      | inl e => ({| heap := h; self := set_rng r (self w) |}, evs, Raise e)
      | inr o =>
          let h := <[program := program_after o]> h in
          let best := fresh (dom h) in
          ({| heap := <[best := best_program o]> h;
              self := set_rng r (self w) |},
           evs ++ [Trials (trial_logs o)],
           Return best)
      end
  end.

(** The message of the error raised at lines 79-81. *)
Definition minibatch_error (valset : list Example) : Exception :=
  ValueError ("Minibatch size cannot exceed the size of the valset. Valset size: "
              ++ pretty (length valset) ++ ".").

(** [compile] (lines 33-148).  Step 1 is switched off in the source:
    line 111 binds [demo_candidates] to [None]. *)
Definition compile {Rng} `{!MIPROv2 Rng} (w : World Rng) (a : Arg.t)
  : World Rng * list Event * Outcome :=
  let '(w, evs, r) := compile_setup w a in
  match r with
  | inl e => (w, evs, Raise e)
  | inr v =>
      if Var.minibatch v
         && (Arg.minibatch_size a >? Z.of_nat (length (Var.valset v)))%Z
      then (w, evs, Raise (minibatch_error (Var.valset v)))
      else
        let '(proceed, evs) :=
          (* Estimate LM calls and get user confirmation *)
          if Arg.requires_permission_to_run a then
            if negb (_get_user_confirmation (heap w !!! Arg.student a)
                       (Var.num_trials v) (Var.minibatch v)
                       (Arg.minibatch_size a)
                       (Arg.minibatch_full_eval_steps a) (Var.valset v)
                       (Arg.program_aware_proposer a))
            then (false,
                  evs ++ [Call_get_user_confirmation (Arg.student a);
                          Call_logger_info "Compilation aborted by the user."])
            else (true, evs ++ [Call_get_user_confirmation (Arg.student a)])
          else (true, evs) in
        if proceed then
          let '(w, evs', out) := compile_optimize w a v None in
          (w, evs ++ evs', out)
        else
          (* Return the original student program *)
          (w, evs, Return (Arg.student a))
  end.

(** Events of lines 54-76. *)
Definition setup_event (e : Event) : bool :=
  match e with
  | Call_set_random_seeds _ | Call_set_and_validate_datasets
  | Call_set_hyperparams_from_run_mode _ _
  | Call_print_auto_run_settings => true
  | _ => false
  end.

(** Events that show the evaluator at work: its construction, the
    optimization step it is handed to, and the trials. *)
Definition evaluator_event (e : Event) : bool :=
  match e with
  | New_Evaluate _ | Call_optimize_prompt_parameters _ _ _ _ _
  | Trials _ => true
  | _ => false
  end.

(** The demo limit in force once the per-call override is applied. *)
Definition overridden (arg : option Z) (attribute : Z) : Z :=
  match arg with Some v => v | None => attribute end.

(** The assignments sampled in a run, in order. *)
Definition sampled (evs : list Event) : list Assignment :=
  evs ≫= λ e, match e with
              | Trials logs => assignment <$> logs
              | _ => []
              end.

(** What a run hands back: the steps of the returned program, or the
    exception. *)
Definition result {Rng} (w : World Rng) (out : Outcome)
  : Exception + Program :=
  match out with
  | Return l => inr (heap w !!! l)
  | Raise e => inl e
  end.

End Mipro.

(** ** The search behind [_optimize_prompt_parameters] *)

Module Search.
Import Mipro.

(** Modelled from the spec: the collaborators of the Search Driver
    (sections 4.4 and 4.5), none of which is in the files at hand: the
    acquisition strategy, the call of the evaluator on a program and a
    set of examples (no score when the error budget is exceeded), and
    the draw of a minibatch.  The strategy sees the seed and the trials
    made so far. *)
Class Collaborators := {
  sample :
    Z → InstructionCandidates → option DemoCandidates → list Trial →
    Assignment;
  evaluate_call : Evaluate → Program → list Example → option Q;
  create_minibatch : Z → Z → list Example → Z → list Example
}.

(** Modelled from the spec: the demo sets a step can choose from
    (section 4.6: without demo candidates every step has exactly one,
    empty, demo set). *)
Definition demo_sets (demo_candidates : option DemoCandidates) (i : nat)
  : list DemoSet :=
  match demo_candidates with
  | None => [[]]
  | Some d => d !!! i
  end.

(** Modelled from the spec: the size of the demo dimension of step [i]. *)
Definition demo_dimension (demo_candidates : option DemoCandidates) (i : nat)
  : nat :=
  length (demo_sets demo_candidates i).

(** Modelled from the spec: the Program Configurator of section 4.3,
    which is not in the files at hand.  It binds to every step the
    instruction and the demo set the assignment selects, in a copy; it
    fails when the assignment names a step or a candidate that does not
    exist. *)
Definition configure_step (instruction_candidates : InstructionCandidates)
    (demo_candidates : option DemoCandidates) (a : Assignment)
    (i : nat) (st : Step) : option Step :=
  c ← a !! i;
  ics ← instruction_candidates !! i;
  ins ← ics !! c.1;
  dem ← demo_sets demo_candidates i !! c.2;
  Some {| step_name := step_name st; instructions := ins; demos := dem |}.

(** Modelled from the spec: [configure(base_program, assignment)] of
    section 4.3, step by step; the assignment has to name every step of
    the program. *)
Definition configure (base : Program)
    (instruction_candidates : InstructionCandidates)
    (demo_candidates : option DemoCandidates) (a : Assignment)
  : option Program :=
  if decide (length a = length base) then
    mapM (λ p, configure_step instruction_candidates demo_candidates a p.1 p.2)
         (imap pair base)
  else None.

(** Modelled from the spec: the Best Program of section 3, as the
    Search Driver keeps it.  [chosen] is the assignment it was
    configured from, and is [None] as long as the Best Program is the
    program the driver was given; [full_score] is its score on the whole
    validation set, and is [None] as long as it has none. *)
Record Best := {
  chosen : option Assignment;
  full_score : option Q
}.

(** Modelled from the spec: the state of the Search Driver of section
    4.5, which stands for [MIPROv2._optimize_prompt_parameters]; that
    method is not in the files at hand.  The driver owns the trial
    history and the Best Program. *)
Record Driver := {
  history : list Trial;
  best : Best
}.

(** Modelled from the spec: step 2 of section 4.5.  The full set is used
    when [minibatch] is false, on every [minibatch_full_eval_steps]-th
    trial, and on the final trial. *)
Definition is_full_eval (minibatch : bool)
    (minibatch_full_eval_steps num_trials t : Z) : bool :=
  negb minibatch
  || (t mod minibatch_full_eval_steps =? 0)%Z
  || (t =? num_trials)%Z.

(** Modelled from the spec: step 4 of section 4.5.  On a full-set
    evaluation the Best Program is replaced when the new score exceeds
    its full-set score, or when it has no full-set score.  A failed
    trial, and a trial on a minibatch, leave it as it is. *)
Definition reconcile (b : Best) (tr : Trial) : Best :=
  let candidate s := {| chosen := Some (assignment tr); full_score := Some s |} in
  if full_eval tr then
    match score tr, full_score b with
    | Some s, None => candidate s
    | Some s, Some q => if Qlt_le_dec q s then candidate s else b
    | None, _ => b
    end
  else b.

(** Modelled from the spec: the order on recorded scores.  No score is
    below every score. *)
Definition score_le (x y : option Q) : Prop :=
  match x, y with
  | None, _ => True
  | Some _, None => False
  | Some a, Some b => (a <= b)%Q
  end.

Section driver.
Context `{!Collaborators}.
Variables (base : Program)
          (instruction_candidates : InstructionCandidates)
          (demo_candidates : option DemoCandidates)
          (evaluate : Evaluate) (valset : list Example)
          (num_trials : Z) (minibatch : bool)
          (minibatch_size minibatch_full_eval_steps seed : Z).

(** Modelled from the spec: trial [t] of section 4.5, sampling,
    evaluating, recording, reconciling.  An assignment that cannot be
    configured is fatal (section 4.3). *)
Definition trial (d : Driver) (t : Z) : Exception + Driver :=
  let a := sample seed instruction_candidates demo_candidates (history d) in
  match configure base instruction_candidates demo_candidates a with
  | None => inl (ConfigurationError "assignment out of range")
  | Some candidate =>
      let full :=
        is_full_eval minibatch minibatch_full_eval_steps num_trials t in
      let examples :=
        if full then valset
        else create_minibatch seed t valset minibatch_size in
      let tr := {| assignment := a;
                   score := evaluate_call evaluate candidate examples;
                   full_eval := full |} in
      inr {| history := history d ++ [tr];
             best := reconcile (best d) tr |}
  end.

(** Modelled from the spec: [n] trials in sequence, the first one
    numbered [t]. *)
Fixpoint trials (n : nat) (t : Z) (d : Driver) : Exception + Driver :=
  match n with
  | O => inr d
  | S n =>
      match trial d t with
      | inl e => inl e
      | inr d => trials n (t + 1)%Z d
      end
  end.

(** Modelled from the spec: the state [NotStarted].  No trial has been
    made, and the Best Program is the program as given, with its score
    on the whole validation set: sections 3 and 7 let the Best Program
    change only for a candidate whose full-set score exceeds the current
    one, so that the run never returns a program that scores below its
    input, and returns the original program when no trial succeeds. *)
Definition NotStarted : Driver :=
  {| history := [];
     best := {| chosen := None;
                full_score := evaluate_call evaluate base valset |} |}.

(** Modelled from the spec: the state after the first [k] trials of the
    run. *)
Definition after (k : nat) : Exception + Driver := trials k 1%Z NotStarted.

(** Modelled from the spec: what the bookkeeping of a driver state has
    to do with its history.  The Best Program scores at least what the
    program as given scores; every scored full-set trial carries the
    score of its configured candidate on the whole validation set, and
    the Best Program scores at least that much; and a Best Program that
    is a candidate is the candidate of a scored full-set trial, with
    that trial's score. *)
Definition sound (d : Driver) : Prop :=
  score_le (evaluate_call evaluate base valset) (full_score (best d))
  ∧ (∀ tr s, tr ∈ history d → full_eval tr = true → score tr = Some s →
       score_le (Some s) (full_score (best d))
       ∧ ∃ p, configure base instruction_candidates demo_candidates
                (assignment tr) = Some p
              ∧ evaluate_call evaluate p valset = Some s)
  ∧ (∀ asg, chosen (best d) = Some asg →
       ∃ tr s, tr ∈ history d ∧ full_eval tr = true ∧ assignment tr = asg
               ∧ score tr = Some s ∧ full_score (best d) = Some s).

(** Modelled from the spec: the state [Done] of section 4.5.  As long
    as no candidate has become Best Program, the program comes back as
    it was given.  The last trial is a full-set trial; the re-evaluation
    of the Best Program that the terminal state asks for under
    minibatching scores a program whose full-set score is already
    recorded, and leaves the bookkeeping as it is. *)
Definition search : Exception + Optimized :=
  match after (Z.to_nat num_trials) with
  | inl e => inl e
  | inr d =>
      match chosen (best d) with
      | None =>
          inr {| program_after := base; best_program := base;
                 trial_logs := history d |}
      | Some a =>
          match configure base instruction_candidates demo_candidates a with
          | Some p =>
              inr {| program_after := base; best_program := p;
                     trial_logs := history d |}
          | None => inl (ConfigurationError "assignment out of range")
          end
      end
  end.
End driver.

(** Modelled from the spec: the inherited methods, with the search above
    in the place of [_optimize_prompt_parameters]. *)
Definition with_search {Rng} `{!Collaborators} (base : MIPROv2 Rng)
  : MIPROv2 Rng :=
  {| _set_random_seeds := _set_random_seeds;
     _set_and_validate_datasets := _set_and_validate_datasets;
     _set_hyperparams_from_run_mode := _set_hyperparams_from_run_mode;
     _get_user_confirmation := _get_user_confirmation;
     _propose_instructions := _propose_instructions;
     _optimize_prompt_parameters :=
       λ r program ic dc evaluate valset num_trials minibatch
         minibatch_size minibatch_full_eval_steps seed,
         (r, search program ic dc evaluate valset num_trials minibatch
               minibatch_size minibatch_full_eval_steps seed) |}.

End Search.

(** ** Worked scenarios *)

Module Scenario.
Import Mipro Search.

(** The seeds the stand-in takes: those of a 32-bit generator. *)
Definition seed_in_range (seed : Z) : bool :=
  (0 <=? seed)%Z && (seed <? 2 ^ 32)%Z.

(** A stand-in for the base class: no run mode, the data sets are taken
    as given (a missing validation set is cut from the training set),
    the operator answers [confirm], and the proposer offers the list
    [proposed] for every step.  The random state is the seed; a
    seed out of range is rejected and leaves the random state alone. *)
Definition base (confirm : bool) (proposed : list string) : MIPROv2 Z :=
  {| _set_random_seeds := λ seed,
       if seed_in_range seed then inr seed
       else inl (ValueError "Seed must be between 0 and 2**32 - 1", λ r, r);
     _set_and_validate_datasets := λ trainset valset,
       match trainset, valset with
       | [], _ => inl (ValueError "Trainset cannot be empty.")
       | _, Some [] =>
           inl (ValueError "Validation set must have at least 1 example.")
       | _, Some v => inr (trainset, v)
       | _, None =>
           inr (take (length trainset / 2) trainset,
                drop (length trainset / 2) trainset)
       end;
     _set_hyperparams_from_run_mode :=
       λ _ r _ num_trials minibatch _ valset,
         (r, (num_trials, valset, minibatch));
     _get_user_confirmation := λ _ _ _ _ _ _ _, confirm;
     _propose_instructions :=
       λ r program _ _ _ _ _ _ _, (r, inr (map (λ _, proposed) program));
     _optimize_prompt_parameters :=
       λ r program _ _ _ _ _ _ _ _ _,
         (r, inr {| program_after := program; best_program := program;
                    trial_logs := [] |}) |}.

(** Collaborators of the search: the strategy walks through the
    instruction candidates, starting at the seed; a program answers an
    example with the instruction of its first step, and the score is the
    share of examples answered as expected; a minibatch is a prefix. *)
Definition answers (p : Program) (e : Example) : bool :=
  bool_decide (instructions <$> head p = Some e.2).

Definition oracle : Collaborators :=
  {| sample := λ seed ic _ trials,
       map (λ ics : list string,
              (Z.to_nat ((seed + Z.of_nat (length trials))
                         mod Z.of_nat (length ics)), 0%nat)) ic;
     evaluate_call := λ _ p examples,
       Some (Z.of_nat (length (filter (λ e, answers p e = true) examples))
             # Pos.of_nat (length examples));
     create_minibatch := λ _ _ valset size, take (Z.to_nat size) valset |}.

(** A one-step student that answers ["yes"], and data it answers well. *)
Definition qa : Program :=
  [{| step_name := "qa"; instructions := "yes"; demos := [] |}].

Definition five : list Example :=
  [("q1", "yes"); ("q2", "yes"); ("q3", "yes"); ("q4", "yes"); ("q5", "yes")].

Definition optimizer (seed : Z) : MIPROv2Plus Z :=
  {| Mipro.seed := seed; max_bootstrapped_demos := 4;
     max_labeled_demos := 16; auto := None; rng := 0%Z |}.

Definition world (seed : Z) : World Z :=
  {| heap := {[ 1%positive := qa ]}; self := optimizer seed |}.

(** A student that answers ["maybe"], in the place of [qa]. *)
Definition novice : Program :=
  [{| step_name := "qa"; instructions := "maybe"; demos := [] |}].

Definition novice_world (seed : Z) : World Z :=
  {| heap := {[ 1%positive := novice ]}; self := optimizer seed |}.

(** The same optimizer after earlier use: another random state, and a
    second program in the store. *)
Definition used_world (seed : Z) : World Z :=
  {| heap := {[ 1%positive := qa; 2%positive := [] ]};
     self := {| Mipro.seed := seed; max_bootstrapped_demos := 4;
                max_labeled_demos := 16; auto := None; rng := 77%Z |} |}.

(** [compile(student, trainset=five, valset=five, ...)]: the arguments
    that vary between the scenarios, the others at their defaults. *)
Definition call (num_trials : Z) (max_demos seed : option Z)
    (minibatch : bool) (minibatch_size : Z) (permission : bool) : Arg.t :=
  {| Arg.student := 1%positive; Arg.trainset := five; Arg.teacher := None;
     Arg.valset := Some five; Arg.num_trials := num_trials;
     Arg.max_bootstrapped_demos := max_demos;
     Arg.max_labeled_demos := max_demos;
     Arg.seed := seed; Arg.minibatch := minibatch;
     Arg.minibatch_size := minibatch_size;
     Arg.minibatch_full_eval_steps := 10;
     Arg.program_aware_proposer := true; Arg.data_aware_proposer := true;
     Arg.view_data_batch_size := 10; Arg.tip_aware_proposer := true;
     Arg.fewshot_aware_proposer := true;
     Arg.requires_permission_to_run := permission |}.

(** The local variables that lines 54-76 leave for [call] on [world 9]. *)
Definition five_settings (minibatch : bool) : Var.t :=
  {| Var.seed := 9; Var.trainset := five; Var.valset := five;
     Var.zeroshot_opt := false; Var.num_trials := 30;
     Var.minibatch := minibatch |}.

End Scenario.

(** ** Sequences of callback events *)

Module Session.
Import Tracing.

(** The callback interface: the four handlers of [LangfuseCallback],
    each with the arguments it is called with.  For a start handler the
    first argument is the value [ACTIVE_CALL_ID] holds during the call. *)
Inductive Event :=
  | module_start (active_call_id : option string) (call_id : string)
      (instance : Instance) (inputs : string)
  | module_end (call_id : string) (outputs : option Any)
      (exception : option Exception)
  | lm_start (active_call_id : option string) (call_id : string)
      (instance : Instance) (inputs : string)
  | lm_end (call_id : string) (outputs : option string)
      (exception : option Exception).

Definition call_id_of (e : Event) : string :=
  match e with
  | module_start _ c _ _ | module_end c _ _
  | lm_start _ c _ _ | lm_end c _ _ => c
  end.

(** The exception an end event reports. *)
Definition exception_of (e : Event) : option Exception :=
  match e with
  | module_end _ _ x | lm_end _ _ x => x
  | _ => None
  end.

(** One event: the callback it leaves, and the exception the handler
    raised, if any. *)
Definition handle (self : LangfuseCallback) (e : Event)
  : LangfuseCallback * option Exception :=
  match e with
  | module_start a c i x => (on_module_start self a c i x, None)
  | module_end c o x => on_module_end self c o x
  | lm_start a c i x => (on_lm_start self a c i x, None)
  | lm_end c o x => on_lm_end self c o x
  end.

(** Events in sequence; a handler that raised leaves the callback as it
    was when the exception left it. *)
Definition run (self : LangfuseCallback) (es : list Event)
  : LangfuseCallback :=
  foldl (λ s e, (handle s e).1) self es.

(** The two dictionaries hold, under a call id, the clients that the
    start handlers make for that id. *)
Definition well_kinded (self : LangfuseCallback) : Prop :=
  (∀ k c, traces self !! k = Some c → c = TraceClient k)
  ∧ (∀ k c, observations self !! k = Some c →
       c = SpanClient ("span-" ++ k)
       ∨ c = GenerationClient ("generation-" ++ k)).

(** A request uses a client for what the SDK offers on it: [end] on a
    span or a generation, [update] on a trace. *)
Definition well_targeted (r : Request) : Prop :=
  match r with
  | end_ (TraceClient _) _ _ _ => False
  | update (SpanClient _) _ | update (GenerationClient _) _ => False
  | _ => True
  end.

(** The request closes an observation as failed. *)
Definition reports_error (r : Request) : Prop :=
  match r with
  | end_ _ _ level status_message =>
      level = "ERROR" ∨ status_message ≠ None
  | _ => False
  end.

(** A trace request carries the session id [session]. *)
Definition in_session (session : string) (r : Request) : Prop :=
  match r with
  | trace _ _ sid _ => sid = session
  | _ => True
  end.

(** A module call that runs a language model call: the events of the
    inner call when the model fails, and the events of the whole call
    when nothing fails. *)
Definition predict : Instance := {| class_name := "Predict"; model := "" |}.
Definition language_model : Instance :=
  {| class_name := "LM"; model := "gpt" |}.

Definition failing_inner : list Event :=
  [lm_start (Some "c1") "c2" language_model "prompt";
   lm_end "c2" None (Some (OtherError "timeout"))].

Definition quiet_call : list Event :=
  [module_start None "c1" predict "question";
   lm_start (Some "c1") "c2" language_model "prompt";
   lm_end "c2" (Some "answer") None;
   module_end "c1" (Some (WithStore "answer")) None].

End Session.

(** ** Variations of a call of [compile] *)

Module Calls.
Import Mipro.

(** The same keyword arguments with another [seed]. *)
Definition with_seed (seed : option Z) (a : Arg.t) : Arg.t :=
  {| Arg.student := Arg.student a; Arg.trainset := Arg.trainset a;
     Arg.teacher := Arg.teacher a; Arg.valset := Arg.valset a;
     Arg.num_trials := Arg.num_trials a;
     Arg.max_bootstrapped_demos := Arg.max_bootstrapped_demos a;
     Arg.max_labeled_demos := Arg.max_labeled_demos a;
     Arg.seed := seed; Arg.minibatch := Arg.minibatch a;
     Arg.minibatch_size := Arg.minibatch_size a;
     Arg.minibatch_full_eval_steps := Arg.minibatch_full_eval_steps a;
     Arg.program_aware_proposer := Arg.program_aware_proposer a;
     Arg.data_aware_proposer := Arg.data_aware_proposer a;
     Arg.view_data_batch_size := Arg.view_data_batch_size a;
     Arg.tip_aware_proposer := Arg.tip_aware_proposer a;
     Arg.fewshot_aware_proposer := Arg.fewshot_aware_proposer a;
     Arg.requires_permission_to_run := Arg.requires_permission_to_run a |}.

(** The same keyword arguments with another [teacher]. *)
Definition with_teacher (teacher : option loc) (a : Arg.t) : Arg.t :=
  {| Arg.student := Arg.student a; Arg.trainset := Arg.trainset a;
     Arg.teacher := teacher; Arg.valset := Arg.valset a;
     Arg.num_trials := Arg.num_trials a;
     Arg.max_bootstrapped_demos := Arg.max_bootstrapped_demos a;
     Arg.max_labeled_demos := Arg.max_labeled_demos a;
     Arg.seed := Arg.seed a; Arg.minibatch := Arg.minibatch a;
     Arg.minibatch_size := Arg.minibatch_size a;
     Arg.minibatch_full_eval_steps := Arg.minibatch_full_eval_steps a;
     Arg.program_aware_proposer := Arg.program_aware_proposer a;
     Arg.data_aware_proposer := Arg.data_aware_proposer a;
     Arg.view_data_batch_size := Arg.view_data_batch_size a;
     Arg.tip_aware_proposer := Arg.tip_aware_proposer a;
     Arg.fewshot_aware_proposer := Arg.fewshot_aware_proposer a;
     Arg.requires_permission_to_run := Arg.requires_permission_to_run a |}.

(** The same world for an optimizer built with another default seed. *)
Definition with_default_seed {Rng} (seed : Z) (w : World Rng) : World Rng :=
  {| heap := heap w;
     self := {| Mipro.seed := seed;
                max_bootstrapped_demos := max_bootstrapped_demos (self w);
                max_labeled_demos := max_labeled_demos (self w);
                auto := auto (self w); rng := rng (self w) |} |}.

(** The optimizer's attributes, the default seed left out. *)
Definition attributes {Rng} (w : World Rng)
  : Z * Z * option AutoMode * Rng :=
  (max_bootstrapped_demos (self w), max_labeled_demos (self w),
   auto (self w), rng (self w)).

(** A stand-in for the base class whose proposer or whose search fails:
    [Scenario.base] with [_propose_instructions] raising when
    [proposer_fails], and [_optimize_prompt_parameters] raising when
    [search_fails]. *)
Definition failing (proposer_fails search_fails : bool) : MIPROv2 Z :=
  let b := Scenario.base true ["no"] in
  {| _set_random_seeds := @_set_random_seeds Z b;
     _set_and_validate_datasets := @_set_and_validate_datasets Z b;
     _set_hyperparams_from_run_mode := @_set_hyperparams_from_run_mode Z b;
     _get_user_confirmation := @_get_user_confirmation Z b;
     _propose_instructions :=
       λ r program trainset dc n p d t f,
         if proposer_fails then (r, inl (OtherError "proposer"))
         else @_propose_instructions Z b r program trainset dc n p d t f;
     _optimize_prompt_parameters :=
       λ r program ic dc ev valset n mb size steps seed,
         if search_fails then (r, inl (OtherError "search"))
         else @_optimize_prompt_parameters Z b r program ic dc ev valset n
                mb size steps seed |}.

(** [compile(student, trainset=[])], the other arguments at their
    defaults. *)
Definition no_data : Arg.t := Arg.defaults 1%positive [].

End Calls.

(** * Properties *)

(** ** The tracing callback *)

Import Tracing.

(** An event is none of the listed ones. *)
Ltac not_among Hin :=
  repeat (apply elem_of_cons in Hin as [Hin|Hin]; [discriminate|]);
  by apply elem_of_nil in Hin.

(** C8.  On a module or LM start event the parent is looked up under the
    ambient call id.  When that id names neither a trace nor an
    observation, a root trace with the caller's [call_id] is created and
    stored under [call_id] (an LM start then opens its generation under
    this new trace).  Otherwise a span (for a module) or a generation
    (for an LM) is created under the parent, which is the parent's
    observation when there is one and the parent's trace otherwise. *)
Theorem start_resolves_parent (self : LangfuseCallback)
    (active : option string) (call_id : string) (instance : Instance)
    (inputs : string) :
  let m := on_module_start self active call_id instance inputs in
  let l := on_lm_start self active call_id instance inputs in
  match get (observations self) active, get (traces self) active with
  | None, None =>
      langfuse m = langfuse self
        ++ [trace (class_name instance) call_id (session_id self) inputs]
      ∧ traces m = <[call_id := TraceClient call_id]> (traces self)
      ∧ observations m = observations self
      ∧ langfuse l = langfuse self
        ++ [trace (class_name instance) call_id (session_id self) inputs;
            generation (TraceClient call_id) (class_name instance)
              ("generation-" ++ call_id) inputs (model instance)]
      ∧ traces l = <[call_id := TraceClient call_id]> (traces self)
  | Some parent, _ | None, Some parent =>
      langfuse m = langfuse self
        ++ [span parent (class_name instance) ("span-" ++ call_id) inputs]
      ∧ observations m
        = <[call_id := SpanClient ("span-" ++ call_id)]> (observations self)
      ∧ traces m = traces self
      ∧ langfuse l = langfuse self
        ++ [generation parent (class_name instance)
              ("generation-" ++ call_id) inputs (model instance)]
      ∧ observations l
        = <[call_id := GenerationClient ("generation-" ++ call_id)]>
            (observations self)
      ∧ traces l = traces self
  end.
Proof.
  unfold on_module_start, on_lm_start.
  destruct (get (observations self) active) as [o|],
           (get (traces self) active) as [t|]; cbn; 
    rewrite <- ?app_assoc; auto 10.
Qed.

(** C7, amended.  When [call_id] names an observation, a module end and
    an LM end close that observation with the outputs, with level
    ["ERROR"] and status message [str(exception)] when an exception was
    passed, and with level ["DEFAULT"] and no status message when none
    was passed.  When it names no observation, an LM end raises
    [KeyError], and a module end is the end of a top-level module: it
    only updates the trace with the output, and neither level nor status
    message is sent. *)
Theorem end_records_status (self : LangfuseCallback) (call_id : string)
    (outputs : option Any) (lm_outputs : option string)
    (exception : option Exception) :
  let level := match exception with Some _ => "ERROR" | None => "DEFAULT" end in
  let status_message := str <$> exception in
  let m := on_module_end self call_id outputs exception in
  let l := on_lm_end self call_id lm_outputs exception in
  match observations self !! call_id with
  | Some observation =>
      m = (send (end_ observation (unwrap_store outputs) level status_message)
             (pop_observation call_id self), None)
      ∧ l.2 = None
      ∧ langfuse l.1
        = langfuse self
          ++ match traces self !! call_id with
             | Some tr => [update tr lm_outputs]
             | None => []
             end
          ++ [end_ observation lm_outputs level status_message]
  | None =>
      l.2 = Some (KeyError call_id)
      ∧ match traces self !! call_id with
        | Some tr =>
            m = (send (update tr (unwrap_store outputs))
                   (pop_trace call_id self), None)
        | None => m = (self, Some (KeyError call_id))
        end
  end.
Proof.
  unfold on_module_end, on_lm_end.
  destruct exception as [e|]; cbn;
    destruct (observations self !! call_id) as [o|] eqn:Ho;
    destruct (traces self !! call_id) as [t|] eqn:Ht; cbn;
    rewrite ?Ho; cbn; rewrite <- ?app_assoc; eauto 10.
Qed.

(** C7, as stated, fails for a top-level module: its failure is not
    recorded.  No observation is ended; the trace is updated with the
    output alone. *)
Lemma toplevel_error_not_recorded :
  let cb := on_module_start (init "dspy-1") None "c1"
              {| class_name := "Predict"; model := "" |} "question" in
  let done := on_module_end cb "c1" None (Some (ValueError "boom")) in
  done.2 = None
  ∧ langfuse done.1
    = [trace "Predict" "c1" "dspy-1" "question"; update (TraceClient "c1") None]
  ∧ ¬ ∃ observation output level status_message,
        end_ observation output level status_message ∈ langfuse done.1.
Proof.
  vm_compute. split; [reflexivity|]. split; [reflexivity|].
  intros (o & out & lv & st & Hin). not_among Hin.
Qed.

(** ** [compile] *)

Import Mipro Search.

Lemma configure_zero_shot (base : Program) (ic : InstructionCandidates)
    (asg : Assignment) (candidate : Program) :
  Search.configure base ic None asg = Some candidate →
  Forall (λ c : nat * nat, c.2 = 0%nat) asg
  ∧ Forall (λ st, demos st = []) candidate.
Proof.
  unfold Search.configure. case_decide as Hlen; [|done].
  intros Hm. apply mapM_Some in Hm.
  assert (Hstep : ∀ i st st', Search.configure_step ic None asg i st = Some st' →
            demos st' = [] ∧ ∃ c, asg !! i = Some c ∧ c.2 = 0%nat).
  { intros i st st'. unfold Search.configure_step.
    destruct (asg !! i) as [c|]; [cbn|done].
    destruct (ic !! i) as [ics|]; [cbn|done].
    destruct (ics !! c.1) as [ins|]; [cbn|done].
    destruct c as [c1 [|c2]]; cbn; [|done].
    intros [= <-]. eauto. }
  split.
  - apply Forall_lookup. intros i c Hc.
    destruct (lookup_lt_is_Some_2 base i) as [st Hst].
    { rewrite <- Hlen. by eapply lookup_lt_Some. }
    destruct (Forall2_lookup_l _ _ _ i (i, st) Hm) as (st' & _ & Hcs).
    { rewrite list_lookup_imap, Hst. done. }
    cbn in Hcs.
    destruct (Hstep _ _ _ Hcs) as (_ & c' & Hc' & Hz). by simplify_eq.
  - apply Forall_lookup. intros i st' Hst'.
    destruct (Forall2_lookup_r _ _ _ i st' Hm Hst') as ([j st] & _ & Hcs).
    cbn in Hcs. by destruct (Hstep _ _ _ Hcs).
Qed.


Section compile.
Context {Rng : Type} {inherited : MIPROv2 Rng}.
Implicit Types (w : World Rng) (a : Arg.t) (v : Var.t).

Lemma fresh_loc_unused (h : Heap) : h !! fresh (dom h) = None.
Proof. apply not_elem_of_dom, is_fresh. Qed.

Lemma insert_fresh_frame (h : Heap) (p : Program) (l : loc) :
  is_Some (h !! l) → <[fresh (dom h) := p]> h !! l = h !! l.
Proof.
  intros Hl. apply lookup_insert_ne. intros <-.
  rewrite fresh_loc_unused in Hl. by destruct Hl.
Qed.

Lemma compile_setup_inv w a w1 evs r :
  compile_setup w a = (w1, evs, r) →
  heap w1 = heap w
  ∧ seed (self w1) = seed (self w)
  ∧ auto (self w1) = auto (self w)
  ∧ (Call_set_and_validate_datasets ∈ evs →
       max_bootstrapped_demos (self w1)
       = overridden (Arg.max_bootstrapped_demos a)
           (max_bootstrapped_demos (self w)))
  ∧ (Call_set_and_validate_datasets ∈ evs →
       max_labeled_demos (self w1)
       = overridden (Arg.max_labeled_demos a) (max_labeled_demos (self w)))
  ∧ (∃ rest, evs = Call_set_random_seeds (or_int (Arg.seed a) (seed (self w)))
                   :: rest
             ∧ match r with
               | inl _ => rest = [] ∨ rest = [Call_set_and_validate_datasets]
               | inr v =>
                   ∃ rest', rest = Call_set_and_validate_datasets
                                  :: Call_set_hyperparams_from_run_mode
                                       (Arg.student a) (Var.zeroshot_opt v)
                                  :: rest'
                     ∧ (rest' = [] ∨ rest' = [Call_print_auto_run_settings])
               end)
  ∧ (∀ v, r = inr v →
       Var.seed v = or_int (Arg.seed a) (seed (self w))
       ∧ Var.zeroshot_opt v
         = (max_bootstrapped_demos (self w1) =? 0)%Z
           && (max_labeled_demos (self w1) =? 0)%Z).
Proof.
  unfold compile_setup.
  destruct (_set_random_seeds _) as [[e0 leave]|r0].
  { intros [= <- <- <-]; cbn. split_and!; eauto; try discriminate.
    all: intros Hin; not_among Hin. }
  destruct (_set_and_validate_datasets _ _) as [e|[trainset valset]].
  - intros [= <- <- <-]; cbn.
    destruct (Arg.max_bootstrapped_demos a), (Arg.max_labeled_demos a);
      cbn; split_and!; eauto; discriminate.
  - destruct (_set_hyperparams_from_run_mode _ _ _ _ _ _ _)
      as [r' [[num_trials valset'] minibatch]].
    intros [= <- <- <-]; cbn.
    destruct (Arg.max_bootstrapped_demos a), (Arg.max_labeled_demos a);
      cbn; split_and!; eauto.
    all: try (intros v [= <-]; cbn; by auto).
    all: eexists; split; [reflexivity|]; cbn;
      eexists; split; [reflexivity|];
      destruct (auto (self w)); auto.
Qed.

(** A setup that went through validated the data sets. *)
Lemma compile_setup_validated w a w1 evs v :
  compile_setup w a = (w1, evs, inr v) →
  Call_set_and_validate_datasets ∈ evs.
Proof.
  intros Hs. destruct (compile_setup_inv _ _ _ _ _ Hs)
    as (_ & _ & _ & _ & _ & (rest & -> & rest' & -> & _) & _).
  by repeat constructor.
Qed.

Lemma compile_optimize_inv w a v d w' evs out :
  compile_optimize w a v d = (w', evs, out) →
  let program := fresh (dom (heap w)) in
  let evaluate := {| devset := Var.valset v |} in
  (∀ l, is_Some (heap w !! l) → heap w' !! l = heap w !! l)
  ∧ seed (self w') = seed (self w)
  ∧ auto (self w') = auto (self w)
  ∧ max_bootstrapped_demos (self w') = max_bootstrapped_demos (self w)
  ∧ max_labeled_demos (self w') = max_labeled_demos (self w)
  ∧ ∃ tail,
      evs = [Call_deepcopy (Arg.student a) program; New_Evaluate evaluate;
             Call_propose_instructions program d] ++ tail
      ∧ (tail = []
         ∨ ∃ ic, let call :=
                   Call_optimize_prompt_parameters program ic
                     (if Var.zeroshot_opt v then None else d) evaluate
                     (Var.seed v) in
                 tail = [call] ∨ ∃ logs, tail = [call; Trials logs]).
Proof.
  unfold compile_optimize, deepcopy.
  destruct (_propose_instructions _ _ _ _ _ _ _ _ _) as [r [e|ic]].
  - intros [= <- <- <-]; cbn. split_and!; auto using insert_fresh_frame.
    exists []. auto.
  - destruct (_optimize_prompt_parameters _ _ _ _ _ _ _ _ _ _ _)
      as [r' [e|o]].
    + intros [= <- <- <-]; cbn. split_and!; auto using insert_fresh_frame.
      eexists; split; [reflexivity|]. right. exists ic. by left.
    + intros [= <- <- <-]; cbn. split_and!; auto.
      * intros l Hl.
        assert (Hne : fresh (dom (heap w)) ≠ l).
        { intros <-. rewrite fresh_loc_unused in Hl. by destruct Hl. }
        rewrite insert_fresh_frame;
          rewrite !lookup_insert_ne by done; done.
      * eexists; split; [reflexivity|]. right. exists ic. right. by eexists.
Qed.

Lemma compile_inv w a w' evs out :
  compile w a = (w', evs, out) →
  ∃ w1 evs1 r evs2,
    compile_setup w a = (w1, evs1, r)
    ∧ evs = evs1 ++ evs2
    ∧ Forall (λ e, setup_event e = false) evs2
    ∧ (∀ l, is_Some (heap w !! l) → heap w' !! l = heap w !! l)
    ∧ seed (self w') = seed (self w1)
    ∧ auto (self w') = auto (self w1)
    ∧ max_bootstrapped_demos (self w') = max_bootstrapped_demos (self w1)
    ∧ max_labeled_demos (self w') = max_labeled_demos (self w1)
    ∧ (∀ program ic dc ev s,
         Call_optimize_prompt_parameters program ic dc ev s ∈ evs2 →
         ∃ v, r = inr v
           ∧ program = fresh (dom (heap w))
           ∧ dc = None
           ∧ s = Var.seed v
           ∧ Call_deepcopy (Arg.student a) program ∈ evs2
           ∧ Call_propose_instructions program None ∈ evs2).
Proof.
  unfold compile.
  destruct (compile_setup w a) as [[w1 evs1] r] eqn:Hsetup.
  destruct (compile_setup_inv _ _ _ _ _ Hsetup) as (Hheap & _).
  intros Hrun. exists w1, evs1, r.
  destruct r as [e|v].
  { injection Hrun as <- <- <-. exists []. rewrite app_nil_r, Hheap.
    split_and!; auto. intros ????? Hin. by apply elem_of_nil in Hin. }
  destruct (_ && _).
  { injection Hrun as <- <- <-. exists []. rewrite app_nil_r, Hheap.
    split_and!; auto. intros ????? Hin. by apply elem_of_nil in Hin. }
  destruct (compile_optimize w1 a v None) as [[w2 evs2] out2] eqn:Hopt.
  destruct (Arg.requires_permission_to_run a);
    [destruct (_get_user_confirmation _ _ _ _ _ _ _)|]; cbn in Hrun.
  2:{ injection Hrun as <- <- <-. eexists. rewrite Hheap.
      split_and!; [reflexivity|rewrite <- ?app_assoc; reflexivity|..]; auto.
      all: try by repeat constructor.
      intros ????? Hin. not_among Hin. }
  all: injection Hrun as <- <- <-;
    destruct (compile_optimize_inv _ _ _ _ _ _ _ Hopt)
      as (Hframe & ? & ? & ? & ? & tail & -> & Htail);
    rewrite Hheap in *.
  all: eexists; split_and!;
    [reflexivity|rewrite <- ?app_assoc; reflexivity|..]; auto.
  all: destruct Htail as [->|[ic [->|[logs ->]]]]; cbn.
  all: try by repeat constructor.
  all: intros ????? Hin; exists v;
    repeat (apply elem_of_cons in Hin as [Hin|Hin]; [try discriminate|]);
    try (by apply elem_of_nil in Hin).
  all: injection Hin as -> -> -> -> ->.
  all: destruct (Var.zeroshot_opt v); split_and!; try done.
  all: by repeat constructor.
Qed.

Lemma setup_events_quiet w a w1 evs r :
  compile_setup w a = (w1, evs, r) →
  Forall (λ e, evaluator_event e = false) evs
  ∧ Forall (λ e, setup_event e = true) evs.
Proof.
  intros Hs. destruct (compile_setup_inv _ _ _ _ _ Hs)
    as (_ & _ & _ & _ & _ & (rest & -> & Hrest) & _).
  destruct r as [e|v].
  - destruct Hrest as [->| ->]; split; by repeat constructor.
  - destruct Hrest as (rest' & -> & [->| ->]);
      split; by repeat constructor.
Qed.

(** C1, amended.  When lines 54-76 have run and left [minibatch] true and
    a validation set shorter than [minibatch_size], [compile] raises
    [ValueError] with a message that ends in the size of that validation
    set.  Nothing has happened but the setup: the operator has not been
    asked, no evaluator exists, no trial has run. *)
Theorem oversized_minibatch_raises w a w1 evs v :
  compile_setup w a = (w1, evs, inr v) →
  Var.minibatch v = true →
  (Arg.minibatch_size a > Z.of_nat (length (Var.valset v)))%Z →
  compile w a
  = (w1, evs,
     Raise (ValueError
              ("Minibatch size cannot exceed the size of the valset. Valset size: "
               ++ pretty (length (Var.valset v)) ++ ".")))
  ∧ Forall (λ e, evaluator_event e = false) evs
  ∧ Call_get_user_confirmation (Arg.student a) ∉ evs.
Proof.
  intros Hs Hmb Hgt. split_and!.
  - unfold compile. rewrite Hs, Hmb.
    replace (Arg.minibatch_size a >? _)%Z with true; [done|].
    symmetry. apply Z.gtb_lt. lia.
  - by destruct (setup_events_quiet _ _ _ _ _ Hs).
  - destruct (setup_events_quiet _ _ _ _ _ Hs) as [_ Hq].
    intros Hin. rewrite Forall_forall in Hq. by apply Hq in Hin.
Qed.

(** C2.  When permission is required and the confirmation hook answers
    false, [compile] returns the very [student] it was given, raises
    nothing, leaves the store as it was, and neither builds nor calls
    the evaluator.  The hook is consulted at line 85, in a call that
    has passed the setup of lines 54-76 and the check of the minibatch
    size of lines 78-81. *)
Theorem declined_run_returns_student w a w1 evs v :
  compile_setup w a = (w1, evs, inr v) →
  Var.minibatch v
  && (Arg.minibatch_size a >? Z.of_nat (length (Var.valset v)))%Z = false →
  Arg.requires_permission_to_run a = true →
  (∀ p n m s f vs pa, _get_user_confirmation p n m s f vs pa = false) →
  ∃ evs',
    compile w a = (w1, evs', Return (Arg.student a))
    ∧ heap w1 = heap w
    ∧ Forall (λ e, evaluator_event e = false) evs'.
Proof.
  intros Hs Hok Hperm Hno.
  exists (evs ++ [Call_get_user_confirmation (Arg.student a);
                  Call_logger_info "Compilation aborted by the user."]).
  split_and!.
  - unfold compile. by rewrite Hs, Hok, Hperm, Hno.
  - by destruct (compile_setup_inv _ _ _ _ _ Hs).
  - apply Forall_app. split; [|by repeat constructor].
    by destruct (setup_events_quiet _ _ _ _ _ Hs).
Qed.

(** Lines 97-148 hand no demo candidates to the search in zero-shot
    mode, whatever Step 1 produced. *)
Lemma zeroshot_discards_any_demos w a v d w' evs out program ic dc ev s :
  compile_optimize w a v d = (w', evs, out) →
  Var.zeroshot_opt v = true →
  Call_optimize_prompt_parameters program ic dc ev s ∈ evs →
  dc = None ∧ Call_propose_instructions program d ∈ evs.
Proof.
  intros Hopt Hz Hin.
  destruct (compile_optimize_inv _ _ _ _ _ _ _ Hopt)
    as (_ & _ & _ & _ & _ & tail & -> & Htail).
  rewrite Hz in Htail.
  destruct Htail as [->|[ic' [->|[logs ->]]]]; cbn in *.
  all: repeat (apply elem_of_cons in Hin as [Hin|Hin]; [try discriminate|]);
    try (by apply elem_of_nil in Hin).
  all: injection Hin as -> -> -> -> ->; split; [done|by repeat constructor].
Qed.

(** C3.  When both demo limits are 0 once the per-call overrides are
    applied, the optimization step is handed no demo candidates: the
    run is in zero-shot mode, every step has a demo dimension of size 1,
    and every candidate program the search can configure carries demo
    index 0 and empty demonstrations, so that instructions alone vary. *)
Theorem zeroshot_discards_demos w a w' evs out program ic dc ev s :
  compile w a = (w', evs, out) →
  overridden (Arg.max_bootstrapped_demos a) (max_bootstrapped_demos (self w))
  = 0%Z →
  overridden (Arg.max_labeled_demos a) (max_labeled_demos (self w)) = 0%Z →
  Call_optimize_prompt_parameters program ic dc ev s ∈ evs →
  dc = None
  ∧ Call_set_hyperparams_from_run_mode (Arg.student a) true ∈ evs
  ∧ (∀ i, Search.demo_dimension dc i = 1%nat)
  ∧ (∀ base asg candidate,
       Search.configure base ic dc asg = Some candidate →
       Forall (λ c : nat * nat, c.2 = 0%nat) asg
       ∧ Forall (λ st, demos st = []) candidate).
Proof.
  intros Hrun Hb Hl Hin.
  destruct (compile_inv _ _ _ _ _ Hrun)
    as (w1 & evs1 & r & evs2 & Hs & -> & Hlate & _ & _ & _ & _ & _ & Hcall).
  destruct (compile_setup_inv _ _ _ _ _ Hs)
    as (_ & _ & _ & Hb1 & Hl1 & (rest & -> & Hrest) & Hvar).
  apply elem_of_app in Hin as [Hin|Hin].
  { destruct (setup_events_quiet _ _ _ _ _ Hs) as [_ Hq].
    rewrite Forall_forall in Hq. by apply Hq in Hin. }
  destruct (Hcall _ _ _ _ _ Hin) as (v & -> & _ & -> & _).
  destruct (Hvar v eq_refl) as [_ Hz].
  rewrite Hb1, Hl1, Hb, Hl in Hz by exact (compile_setup_validated _ _ _ _ _ Hs).
  cbn in Hz.
  destruct Hrest as (rest' & -> & _). rewrite Hz.
  split_and!; [done| |done|].
  - apply elem_of_app. left. by repeat constructor.
  - intros base asg candidate. apply configure_zero_shot.
Qed.

(** C6.  A call to [compile] leaves the steps of the student as they
    were (and so every program that was in the store before the call),
    and the optimization step works on a deep copy: the program it is
    handed is the copy made at line 98, an object that did not exist
    before the call and is not the student. *)
Theorem student_not_mutated w a w' evs out :
  compile w a = (w', evs, out) →
  is_Some (heap w !! Arg.student a) →
  heap w' !! Arg.student a = heap w !! Arg.student a
  ∧ ∀ program ic dc ev s,
      Call_optimize_prompt_parameters program ic dc ev s ∈ evs →
      program ≠ Arg.student a
      ∧ heap w !! program = None
      ∧ Call_deepcopy (Arg.student a) program ∈ evs
      ∧ Call_propose_instructions program None ∈ evs.
Proof.
  intros Hrun Hstudent.
  destruct (compile_inv _ _ _ _ _ Hrun)
    as (w1 & evs1 & r & evs2 & Hs & -> & Hlate & Hframe & _ & _ & _ & _
        & Hcall).
  split; [by apply Hframe|].
  intros program ic dc ev s Hin.
  apply elem_of_app in Hin as [Hin|Hin].
  { destruct (setup_events_quiet _ _ _ _ _ Hs) as [_ Hq].
    rewrite Forall_forall in Hq. by apply Hq in Hin. }
  destruct (Hcall _ _ _ _ _ Hin) as (v & _ & -> & _ & _ & Hcopy & Hprop).
  split_and!.
  - intros Heq. rewrite <- Heq, fresh_loc_unused in Hstudent.
    by destruct Hstudent.
  - apply fresh_loc_unused.
  - apply elem_of_app. by right.
  - apply elem_of_app. by right.
Qed.



End compile.

(** ** The search *)

Lemma score_le_refl x : score_le x x.
Proof. destruct x; cbn; [apply Qle_refl|done]. Qed.

Lemma score_le_trans x y z : score_le x y → score_le y z → score_le x z.
Proof.
  destruct x, y, z; cbn; try done. apply Qle_trans.
Qed.

Lemma reconcile_mono (b : Best) (tr : Trial) :
  score_le (full_score b) (full_score (reconcile b tr)).
Proof.
  unfold reconcile.
  destruct (full_eval tr); [|apply score_le_refl].
  destruct (score tr) as [s|]; [|apply score_le_refl].
  destruct (full_score b) as [q|] eqn:Hq; [|done].
  destruct (Qlt_le_dec q s); [by apply Qlt_le_weak|].
  rewrite Hq. apply score_le_refl.
Qed.

Lemma reconcile_max (b : Best) (tr : Trial) (s : Q) :
  full_eval tr = true → score tr = Some s →
  score_le (Some s) (full_score (reconcile b tr)).
Proof.
  unfold reconcile. intros -> ->.
  destruct (full_score b) as [q|] eqn:Hq; [|apply Qle_refl].
  destruct (Qlt_le_dec q s); [apply Qle_refl|by rewrite Hq].
Qed.

Lemma reconcile_chosen (b : Best) (tr : Trial) (asg : Assignment) :
  chosen (reconcile b tr) = Some asg →
  (chosen b = Some asg ∧ reconcile b tr = b)
  ∨ (full_eval tr = true ∧ assignment tr = asg
     ∧ ∃ s, score tr = Some s ∧ full_score (reconcile b tr) = Some s).
Proof.
  unfold reconcile.
  destruct (full_eval tr); [|by left].
  destruct (score tr) as [s|]; [|by left].
  destruct (full_score b) as [q|].
  - destruct (Qlt_le_dec q s); cbn; [|by left].
    intros [= <-]. right. eauto.
  - cbn. intros [= <-]. right. eauto.
Qed.

Section search.
Context `{!Collaborators}.
Variables (base : Program) (ic : InstructionCandidates)
          (dc : option DemoCandidates) (ev : Evaluate)
          (valset : list Example) (num_trials : Z) (minibatch : bool)
          (minibatch_size minibatch_full_eval_steps seed : Z).

Local Abbreviation trial :=
  (Search.trial base ic dc ev valset num_trials minibatch
     minibatch_size minibatch_full_eval_steps seed).
Local Abbreviation trials :=
  (Search.trials base ic dc ev valset num_trials minibatch
     minibatch_size minibatch_full_eval_steps seed).
Local Abbreviation after :=
  (Search.after base ic dc ev valset num_trials minibatch
     minibatch_size minibatch_full_eval_steps seed).
Local Abbreviation sound := (Search.sound base ic dc ev valset).

Lemma trial_history d t d' :
  trial d t = inr d' →
  ∃ tr, history d' = history d ++ [tr] ∧ best d' = reconcile (best d) tr.
Proof.
  unfold Search.trial.
  destruct (configure _ _ _ _) as [candidate|]; [|done].
  intros [= <-]; cbn. eauto.
Qed.

(** A trial never lowers the full-set score of the Best Program. *)
Lemma trial_mono d t d' :
  trial d t = inr d' →
  score_le (full_score (best d)) (full_score (best d')).
Proof.
  intros Ht. destruct (trial_history _ _ _ Ht) as (tr & _ & ->).
  apply reconcile_mono.
Qed.

Lemma trials_mono n t d d' :
  trials n t d = inr d' →
  score_le (full_score (best d)) (full_score (best d')).
Proof.
  revert t d. induction n as [|n IH]; intros t d; cbn.
  - intros [= <-]. apply score_le_refl.
  - destruct (trial d t) as [e|d1] eqn:Ht; [done|]. intros Hn.
    eapply score_le_trans; [by eapply trial_mono|by eapply IH].
Qed.

Lemma NotStarted_sound : sound (NotStarted base ev valset).
Proof.
  split_and!; cbn.
  - apply score_le_refl.
  - intros tr s Hin. by apply elem_of_nil in Hin.
  - done.
Qed.

Lemma trial_sound d t d' : trial d t = inr d' → sound d → sound d'.
Proof.
  unfold Search.trial. intros Ht (Hinput & Hfull & Hchosen).
  destruct (configure _ _ _ _) as [candidate|] eqn:Hc; [|done].
  injection Ht as <-. split_and!; cbn [history best].
  - eapply score_le_trans; [exact Hinput|apply reconcile_mono].
  - intros tr s [Hin|Hin]%elem_of_app Hf Hs.
    + destruct (Hfull _ _ Hin Hf Hs) as [Hle Hp]. split; [|done].
      eapply score_le_trans; [exact Hle|apply reconcile_mono].
    + apply list_elem_of_singleton in Hin as ->. cbn in Hf, Hs.
      split; [by apply reconcile_max|].
      rewrite Hf in Hs. eauto.
  - intros asg [[Hasg ->]|(Hf & Ha & s & Hs & Hscore)]%reconcile_chosen.
    + destruct (Hchosen _ Hasg) as (tr & s & Hin & ?).
      exists tr, s. rewrite elem_of_app. auto.
    + eexists _, s. rewrite elem_of_app, list_elem_of_singleton.
      split_and!; [by right|done..].
Qed.

Lemma trials_sound n t d d' : trials n t d = inr d' → sound d → sound d'.
Proof.
  revert t d. induction n as [|n IH]; intros t d; cbn.
  - by intros [= <-].
  - destruct (trial d t) as [e|d1] eqn:Ht; [done|].
    intros Hn Hd. eapply IH; [done|]. by eapply trial_sound.
Qed.

Lemma trials_split n m t d d' :
  trials (n + m) t d = inr d' →
  ∃ dn, trials n t d = inr dn
        ∧ trials m (t + Z.of_nat n)%Z dn = inr d'
        ∧ length (history dn) = (length (history d) + n)%nat
        ∧ ∃ more, history d' = history dn ++ more.
Proof.
  revert t d. induction n as [|n IH]; intros t d; cbn.
  - intros Hm. exists d. rewrite Z.add_0_r, Nat.add_0_r.
    split_and!; [done..|].
    clear -Hm. revert t d Hm. induction m as [|m IHm]; intros t d; cbn.
    + intros [= <-]. exists []. by rewrite app_nil_r.
    + destruct (trial d t) as [e|d1] eqn:Ht; [done|]. intros Hm.
      destruct (trial_history _ _ _ Ht) as (tr & Htr & _).
      destruct (IHm _ _ Hm) as [more ->].
      exists (tr :: more). by rewrite Htr, <- app_assoc.
  - destruct (trial d t) as [e|d1] eqn:Ht; [done|]. intros Hrun.
    destruct (IH _ _ Hrun) as (dn & Hn & Hm & Hlen & Hmore).
    destruct (trial_history _ _ _ Ht) as (tr & Htr & _).
    exists dn. split_and!; [done| | |done].
    + by replace (t + Z.of_nat (S n))%Z with (t + 1 + Z.of_nat n)%Z by lia.
    + rewrite Hlen, Htr, length_app. cbn. lia.
Qed.

(** A run that makes [n] trials went through a state after each number
    [k] of trials up to [n]; the history of that state is the first [k]
    entries of the final history, and the Best Program of the final
    state scores at least what the Best Program scored then. *)
Lemma after_prefix k n dn :
  (k ≤ n)%nat →
  after n = inr dn →
  ∃ dk, after k = inr dk
        ∧ history dk = take k (history dn)
        ∧ score_le (full_score (best dk)) (full_score (best dn)).
Proof.
  unfold Search.after. intros Hkn Hn.
  replace n with (k + (n - k))%nat in Hn by lia.
  destruct (trials_split _ _ _ _ _ Hn) as (dk & Hk & Hrest & Hlen & more & Hmore).
  exists dk. split_and!; [done| |by eapply trials_mono].
  rewrite Hmore, take_app_length'; [done|]. by rewrite Hlen.
Qed.

(** What the search hands back, in terms of its final state. *)
Lemma search_spec o :
  search base ic dc ev valset num_trials minibatch minibatch_size
    minibatch_full_eval_steps seed = inr o →
  program_after o = base
  ∧ ∃ d, after (Z.to_nat num_trials) = inr d
         ∧ trial_logs o = history d
         ∧ sound d
         ∧ match chosen (best d) with
           | None => best_program o = base
           | Some asg => configure base ic dc asg = Some (best_program o)
           end.
Proof.
  unfold search.
  destruct (Search.after _ _ _ _ _ _ _ _ _ _ _) as [e|d] eqn:Hrun; [done|].
  assert (Hsound : sound d).
  { eapply trials_sound; [exact Hrun|apply NotStarted_sound]. }
  destruct (chosen (best d)) as [asg|] eqn:Hb.
  - destruct (configure base ic dc asg) as [p|] eqn:Hp; [|done].
    intros [= <-]; cbn. split; [done|]. exists d. by rewrite Hb.
  - intros [= <-]; cbn. split; [done|]. exists d. by rewrite Hb.
Qed.
End search.

(** ** Runs of [compile] over the search *)

Local Arguments compile_optimize : simpl never.
Local Arguments sampled : simpl never.

Section reads.
Context {Rng : Type} (inherited : MIPROv2 Rng).

(** [compile] reads the optimizer's attributes and the steps of the
    student, and nothing else of the world it starts in: not the random
    state left by earlier calls, not the rest of the store. *)
Lemma compile_reads (w1 w2 : World Rng) (a : Arg.t) :
  seed (self w1) = seed (self w2) →
  max_bootstrapped_demos (self w1) = max_bootstrapped_demos (self w2) →
  max_labeled_demos (self w1) = max_labeled_demos (self w2) →
  auto (self w1) = auto (self w2) →
  heap w1 !!! Arg.student a = heap w2 !!! Arg.student a →
  let run1 := compile w1 a in
  let run2 := compile w2 a in
  sampled run1.1.2 = sampled run2.1.2
  ∧ result run1.1.1 run1.2 = result run2.1.1 run2.2.
Proof.
  destruct w1 as [h1 [seed1 b1 l1 auto1 rng1]],
           w2 as [h2 [seed2 b2 l2 auto2 rng2]]; cbn.
  intros <- <- <- <- Hstudent.
  assert (Hopt : ∀ s v,
            let o1 := compile_optimize {| heap := h1; self := s |} a v None in
            let o2 := compile_optimize {| heap := h2; self := s |} a v None in
            (∀ evs, sampled (evs ++ o1.1.2) = sampled (evs ++ o2.1.2))
            ∧ result o1.1.1 o1.2 = result o2.1.1 o2.2).
  { intros s v. unfold compile_optimize; cbn.
    rewrite !lookup_total_insert_eq, <- Hstudent.
    destruct (_propose_instructions _ _ _ _ _ _ _ _ _) as [r1 [e|ic]]; cbn.
    { split; [|done]. intros evs. unfold sampled. by rewrite !bind_app. }
    destruct (_optimize_prompt_parameters _ _ _ _ _ _ _ _ _ _ _)
      as [r2 [e|o]]; cbn.
    { split; [|done]. intros evs. unfold sampled. by rewrite !bind_app. }
    rewrite !lookup_total_insert_eq.
    split; [|done]. intros evs. unfold sampled. by rewrite !bind_app. }
  unfold compile, compile_setup, set_rng, set_max_labeled_demos,
    set_max_bootstrapped_demos; cbn.
  rewrite <- Hstudent.
  destruct (_set_random_seeds _) as [[e0 leave]|r0]; [done|].
  destruct (_set_and_validate_datasets _ _) as [e|[trainset valset]];
    [done|].
  destruct (Arg.max_bootstrapped_demos a) as [b|],
           (Arg.max_labeled_demos a) as [l|]; cbn.
  all: destruct (_set_hyperparams_from_run_mode _ _ _ _ _ _ _)
         as [r [[num_trials valset'] minibatch]]; cbn.
  all: rewrite <- ?Hstudent.
  all: destruct (_ && _); [done|].
  all: destruct (Arg.requires_permission_to_run a);
         [destruct (_get_user_confirmation _ _ _ _ _ _ _)|]; cbn.
  all: try by rewrite Hstudent.
  all: match goal with
       | |- context [compile_optimize {| heap := _; self := ?s |} _ ?v _] =>
           destruct (Hopt s v) as [Hsampled Hresult]
       end.
  all: destruct (compile_optimize _ _ _ _) as [[w1' evs1] out1].
  all: destruct (compile_optimize _ _ _ _) as [[w2' evs2] out2].
  all: cbn in *; split; [apply Hsampled|done].
Qed.

End reads.

Section runs.
Context {Rng : Type} (inherited : MIPROv2 Rng) `{!Collaborators}.

(** C5.  Two runs of [compile] with the same arguments, the seed among
    them, on optimizers with the same attributes and on students with
    the same steps, with the same proposer and the same evaluator,
    sample the same sequence of assignments and end with the same Best
    Program (or the same exception).  What the runs may differ in, the
    random state before the call and the rest of the store, has no
    influence. *)
Theorem compile_deterministic (w1 w2 : World Rng) (a : Arg.t) :
  seed (self w1) = seed (self w2) →
  max_bootstrapped_demos (self w1) = max_bootstrapped_demos (self w2) →
  max_labeled_demos (self w1) = max_labeled_demos (self w2) →
  auto (self w1) = auto (self w2) →
  heap w1 !!! Arg.student a = heap w2 !!! Arg.student a →
  let run1 := @compile Rng (with_search inherited) w1 a in
  let run2 := @compile Rng (with_search inherited) w2 a in
  sampled run1.1.2 = sampled run2.1.2
  ∧ result run1.1.1 run1.2 = result run2.1.1 run2.2.
Proof. apply (compile_reads (with_search inherited)). Qed.

(** Lines 97-148 over the search: what a run that returns a program has
    done. *)
Lemma optimize_over_search (w1 w2 : World Rng) (a : Arg.t) (v : Var.t)
    (evs2 : list Event) (l : loc) :
  @compile_optimize Rng (with_search inherited) w1 a v None
  = (w2, evs2, Return l) →
  let student := heap w1 !!! Arg.student a in
  let returned := heap w2 !!! l in
  let ev := {| devset := Var.valset v |} in
  let n := Z.to_nat (Var.num_trials v) in
  let input_score := evaluate_call ev student (Var.valset v) in
  ∃ program ic logs,
    let state :=
      after student ic None ev (Var.valset v) (Var.num_trials v)
        (Var.minibatch v) (Arg.minibatch_size a)
        (Arg.minibatch_full_eval_steps a) (Var.seed v) in
    Call_optimize_prompt_parameters program ic None ev (Var.seed v) ∈ evs2
    ∧ Trials logs ∈ evs2
    ∧ (∀ i j, (i ≤ j ≤ n)%nat →
         ∃ di dj, state i = inr di ∧ state j = inr dj
                  ∧ history di = take i logs ∧ history dj = take j logs
                  ∧ score_le input_score (full_score (best di))
                  ∧ score_le (full_score (best di)) (full_score (best dj)))
    ∧ ∃ d, state n = inr d ∧ history d = logs
           ∧ match chosen (best d) with
             | None => returned = student
             | Some asg =>
                 ∃ s, full_score (best d) = Some s
                      ∧ configure student ic None asg = Some returned
                      ∧ evaluate_call ev returned (Var.valset v) = Some s
                      ∧ score_le input_score (Some s)
                      ∧ ∀ tr s', tr ∈ logs → full_eval tr = true →
                          score tr = Some s' → (s' <= s)%Q
             end.
Proof.
  unfold compile_optimize, deepcopy; cbn.
  destruct (_propose_instructions _ _ _ _ _ _ _ _ _) as [r1 [e|ic]]; [done|].
  rewrite lookup_total_insert_eq.
  replace (if Var.zeroshot_opt v then None else None)
    with (@None DemoCandidates) by by destruct (Var.zeroshot_opt v).
  destruct (search _ _ _ _ _ _ _ _ _ _) as [e|o] eqn:Hsearch; [done|].
  intros [= <- <- <-]; cbn. rewrite lookup_total_insert_eq.
  destruct (search_spec _ _ _ _ _ _ _ _ _ _ _ Hsearch)
    as (_ & d & Hd & Hlogs & (Hinput & Hfull & Hchosen) & Hbest).
  exists (fresh (dom (heap w1))), ic, (trial_logs o).
  split_and!.
  - by repeat constructor.
  - by repeat constructor.
  - intros i j [Hij Hjn].
    destruct (after_prefix _ _ _ _ _ _ _ _ _ _ _ _ _ Hjn Hd)
      as (dj & Hj & Hhj & _).
    destruct (after_prefix _ _ _ _ _ _ _ _ _ _ _ _ _ Hij Hj)
      as (di & Hi & Hhi & Hmono).
    exists di, dj. split_and!; [done..| | | |done].
    + by rewrite Hhi, Hhj, take_take, Nat.min_l, Hlogs.
    + by rewrite Hhj, Hlogs.
    + eapply trials_sound; [exact Hi|apply NotStarted_sound].
  - exists d. split_and!; [done..|].
    destruct (chosen (best d)) as [asg|] eqn:Hasg; [|done].
    destruct (Hchosen asg eq_refl) as (tr & s & Hin & Hf & Ha & Hs & Hscore).
    destruct (Hfull _ _ Hin Hf Hs) as (_ & p & Hp & Hev).
    assert (p = best_program o) as -> by congruence.
    exists s. split_and!; [done..|by rewrite <- Hscore|].
    intros tr' s' Hin' Hf' Hs'. rewrite Hlogs in Hin'.
    destruct (Hfull _ _ Hin' Hf' Hs') as [Hle _].
    by rewrite Hscore in Hle.
Qed.

(** C4.  A completed run of [compile] over the search returns either
    the student itself, untouched (the operator declined), or a program
    made by the search.  In that case the search has gone through a
    state after each of its trials; from one of these states to a later
    one the full-set score of the Best Program never decreases, and it
    starts at the score of the student's program.  The returned program
    has the steps of the student when no candidate exceeded it;
    otherwise it is the candidate configured from the best assignment,
    its score on the whole validation set is the recorded one, which is
    at least the score of the student's program and at least the score
    of every full-set trial of the run. *)
Theorem best_program_of_search (w w' : World Rng) (a : Arg.t)
    (evs : list Event) (l : loc) :
  @compile Rng (with_search inherited) w a = (w', evs, Return l) →
  let student := heap w !!! Arg.student a in
  let returned := heap w' !!! l in
  (l = Arg.student a ∧ heap w' = heap w
   ∧ Forall (λ e, evaluator_event e = false) evs)
  ∨ ∃ w1 evs1 v program ic logs,
      let ev := {| devset := Var.valset v |} in
      let n := Z.to_nat (Var.num_trials v) in
      let input_score := evaluate_call ev student (Var.valset v) in
      let state :=
        after student ic None ev (Var.valset v) (Var.num_trials v)
          (Var.minibatch v) (Arg.minibatch_size a)
          (Arg.minibatch_full_eval_steps a) (Var.seed v) in
      @compile_setup Rng (with_search inherited) w a = (w1, evs1, inr v)
      ∧ Call_optimize_prompt_parameters program ic None ev (Var.seed v) ∈ evs
      ∧ Trials logs ∈ evs
      ∧ (∀ i j, (i ≤ j ≤ n)%nat →
           ∃ di dj, state i = inr di ∧ state j = inr dj
                    ∧ history di = take i logs ∧ history dj = take j logs
                    ∧ score_le input_score (full_score (best di))
                    ∧ score_le (full_score (best di)) (full_score (best dj)))
      ∧ ∃ d, state n = inr d ∧ history d = logs
             ∧ match chosen (best d) with
               | None => returned = student
               | Some asg =>
                   ∃ s, full_score (best d) = Some s
                        ∧ configure student ic None asg = Some returned
                        ∧ evaluate_call ev returned (Var.valset v) = Some s
                        ∧ score_le input_score (Some s)
                        ∧ ∀ tr s', tr ∈ logs → full_eval tr = true →
                            score tr = Some s' → (s' <= s)%Q
               end.
Proof.
  unfold compile.
  destruct (compile_setup w a) as [[w1 evs1] r] eqn:Hs.
  destruct (compile_setup_inv _ _ _ _ _ Hs) as (Hheap & _).
  destruct (setup_events_quiet _ _ _ _ _ Hs) as [Hquiet _].
  destruct r as [e|v]; [done|].
  destruct (_ && _); [done|].
  destruct (compile_optimize w1 a v None) as [[w2 evs2] out2] eqn:Hopt.
  destruct (Arg.requires_permission_to_run a);
    [destruct (_get_user_confirmation _ _ _ _ _ _ _)|]; cbn.
  2:{ intros [= <- <- <-]. left. split_and!; [done..|].
      apply Forall_app. split; [done|by repeat constructor]. }
  all: intros [= <- <- ->]; right.
  all: destruct (optimize_over_search _ _ _ _ _ _ Hopt)
         as (program & ic & logs & Hcall & Htrials & Hmono & Hdone).
  all: rewrite Hheap in Hmono, Hdone.
  all: exists w1, evs1, v, program, ic, logs.
  all: split_and!; [done|rewrite !elem_of_app; auto..|done|done].
Qed.
End runs.

(** ** Scenarios *)

Import Scenario.

(** A run, and a successful setup, as the triple of its components. *)
Lemma run_eta {Rng} `{!MIPROv2 Rng} (w : World Rng) (a : Arg.t) :
  compile w a = ((compile w a).1.1, (compile w a).1.2, (compile w a).2).
Proof. by destruct (compile w a) as [[??]?]. Defined.

Lemma setup_eta {Rng} `{!MIPROv2 Rng} (w : World Rng) (a : Arg.t) v :
  (compile_setup w a).2 = inr v →
  compile_setup w a
  = ((compile_setup w a).1.1, (compile_setup w a).1.2, inr v).
Proof. destruct (compile_setup w a) as [[??]?]; cbn. by intros ->. Defined.

(** C1, as stated, fails: without minibatching a minibatch size of 25
    on a validation set of 5 raises nothing, and the evaluator is built
    and handed to the search. *)
Lemma oversized_minibatch_accepted_without_minibatching :
  let a := call 30 None None false 25 false in
  let run := @compile Z (base true ["no"]) (world 9) a in
  (Arg.minibatch_size a > Z.of_nat (length five))%Z
  ∧ (@compile_setup Z (base true ["no"]) (world 9) a).2
    = inr (five_settings false)
  ∧ run.2 = Return 3%positive
  ∧ New_Evaluate {| devset := five |} ∈ run.1.2.
Proof.
  vm_compute. split_and!; try reflexivity. by repeat constructor.
Qed.

(** With minibatching, the same sizes end in the error, which names the
    5 examples. *)
Lemma oversized_minibatch_raises_witness :
  let a := call 30 None None true 25 true in
  (@compile Z (base true ["no"]) (world 9) a).2
  = Raise (ValueError
      "Minibatch size cannot exceed the size of the valset. Valset size: 5.").
Proof.
  intros a.
  pose (s := @compile_setup Z (base true ["no"]) (world 9) a).
  destruct (oversized_minibatch_raises (inherited := base true ["no"])
              (world 9) a s.1.1 s.1.2 (five_settings true))
    as [Hrun _].
  - apply setup_eta. vm_compute. reflexivity.
  - reflexivity.
  - vm_compute. reflexivity.
  - rewrite Hrun. vm_compute. reflexivity.
Defined.

(** With a minibatch of 5 the operator is asked, declines, and gets the
    student back. *)
Lemma declined_run_returns_student_witness :
  let a := call 30 None None true 5 true in
  let run := @compile Z (base false ["no"]) (world 9) a in
  run.2 = Return (Arg.student a) ∧ heap run.1.1 = heap (world 9).
Proof.
  intros a run.
  pose (s := @compile_setup Z (base false ["no"]) (world 9) a).
  destruct (declined_run_returns_student (inherited := base false ["no"])
              (world 9) a s.1.1 s.1.2 (five_settings true))
    as (evs' & Hrun & Hheap & _).
  - apply setup_eta. vm_compute. reflexivity.
  - vm_compute. reflexivity.
  - reflexivity.
  - reflexivity.
  - subst run. rewrite Hrun. cbn. split; [reflexivity|exact Hheap].
Defined.

(** A call that sets both demo limits to 0 runs in zero-shot mode. *)
Lemma zeroshot_discards_demos_witness :
  let a := call 2 (Some 0%Z) None false 25 false in
  let run := @compile Z (base true ["no"]) (world 9) a in
  Call_set_hyperparams_from_run_mode (Arg.student a) true ∈ run.1.2
  ∧ demo_dimension None 0 = 1%nat.
Proof.
  intros a run.
  destruct (zeroshot_discards_demos (inherited := base true ["no"])
              (world 9) a run.1.1 run.1.2 run.2 2%positive [["no"]] None
              {| devset := five |} 9%Z (run_eta _ _))
    as (_ & Hmode & Hdim & _).
  - reflexivity.
  - reflexivity.
  - vm_compute. by repeat constructor.
  - split; [exact Hmode|exact (Hdim 0%nat)].
Defined.

(** After two trials of the search the student still answers ["yes"]. *)
Lemma student_not_mutated_witness :
  let a := call 2 None None false 25 false in
  let run := @compile Z (with_search (H := oracle) (base true ["no"; "yes"]))
               (world 9) a in
  heap run.1.1 !! 1%positive = Some qa.
Proof.
  intros a run.
  destruct (student_not_mutated
              (inherited := with_search (H := oracle) (base true ["no"; "yes"]))
              (world 9) a run.1.1 run.1.2 run.2 (run_eta _ _))
    as [Hsame _].
  - vm_compute. eauto.
  - etrans; [exact Hsame|]. vm_compute. reflexivity.
Defined.



(** A fresh optimizer and a used one, seed 9 both, make the same three
    trials and return the same program. *)
Lemma compile_deterministic_witness :
  let a := call 3 None None false 25 false in
  let inherited := with_search (H := oracle) (base true ["no"; "yes"]) in
  let run1 := @compile Z inherited (world 9) a in
  let run2 := @compile Z inherited (used_world 9) a in
  sampled run1.1.2 = sampled run2.1.2
  ∧ result run1.1.1 run1.2 = result run2.1.1 run2.2.
Proof.
  intros a inherited.
  apply (compile_deterministic (H := oracle) (base true ["no"; "yes"])
           (world 9) (used_world 9) a);
    vm_compute; reflexivity.
Defined.

(** Three full-set trials over the candidates ["no"] and ["yes"], for a
    student that answers ["maybe"]. *)
Lemma best_program_of_search_witness :
  let a := call 3 None None false 25 false in
  let inherited := base true ["no"; "yes"] in
  let run := @compile Z (with_search (H := oracle) inherited)
               (novice_world 9) a in
  let student := heap (novice_world 9) !!! Arg.student a in
  let returned := heap run.1.1 !!! 3%positive in
  ∃ w1 evs1 v program ic logs,
    let ev := {| devset := Var.valset v |} in
    let n := Z.to_nat (Var.num_trials v) in
    let input_score := @evaluate_call oracle ev student (Var.valset v) in
    let state :=
      @after oracle student ic None ev (Var.valset v) (Var.num_trials v)
        (Var.minibatch v) (Arg.minibatch_size a)
        (Arg.minibatch_full_eval_steps a) (Var.seed v) in
    @compile_setup Z (with_search (H := oracle) inherited) (novice_world 9) a
    = (w1, evs1, inr v)
    ∧ Call_optimize_prompt_parameters program ic None ev (Var.seed v)
      ∈ run.1.2
    ∧ Trials logs ∈ run.1.2
    ∧ (∀ i j, (i ≤ j ≤ n)%nat →
         ∃ di dj, state i = inr di ∧ state j = inr dj
                  ∧ history di = take i logs ∧ history dj = take j logs
                  ∧ score_le input_score (full_score (best di))
                  ∧ score_le (full_score (best di)) (full_score (best dj)))
    ∧ ∃ d, state n = inr d ∧ history d = logs
           ∧ match chosen (best d) with
             | None => returned = student
             | Some asg =>
                 ∃ s, full_score (best d) = Some s
                      ∧ configure student ic None asg = Some returned
                      ∧ @evaluate_call oracle ev returned (Var.valset v)
                        = Some s
                      ∧ score_le input_score (Some s)
                      ∧ ∀ tr s', tr ∈ logs → full_eval tr = true →
                          score tr = Some s' → (s' <= s)%Q
             end.
Proof.
  intros a inherited run.
  destruct (best_program_of_search (H := oracle) inherited (novice_world 9)
              run.1.1 a run.1.2 3%positive) as [(Hdeclined & _)|Hfound].
  - vm_compute. reflexivity.
  - discriminate Hdeclined.
  - exact Hfound.
Defined.

(** In that run the candidate ["yes"], which answers all five examples,
    is the program returned. *)
Lemma better_candidate_returned :
  let a := call 3 None None false 25 false in
  let run := @compile Z (with_search (H := oracle) (base true ["no"; "yes"]))
               (novice_world 9) a in
  run.2 = Return 3%positive
  ∧ heap run.1.1 !! 3%positive = Some qa
  ∧ @evaluate_call oracle {| devset := five |} novice five = Some (0 # 5)
  ∧ @evaluate_call oracle {| devset := five |} qa five = Some (5 # 5).
Proof. vm_compute. by split_and!. Qed.

(** A candidate that scores below the student is not returned.  The
    student answers all five examples; the one candidate the proposer
    offers answers none; after the one full-set trial the program that
    comes back has the steps of the student. *)
Lemma student_kept_over_worse_candidate :
  let a := call 1 None None false 25 false in
  let run := @compile Z (with_search (H := oracle) (base true ["no"]))
               (world 9) a in
  run.2 = Return 3%positive
  ∧ heap run.1.1 !! 3%positive = Some qa
  ∧ sampled run.1.2 = [[(0%nat, 0%nat)]]
  ∧ @evaluate_call oracle {| devset := five |} qa five = Some (5 # 5).
Proof. vm_compute. by split_and!. Qed.

(** * Further properties *)

Import Calls.

(** ** More on [compile] *)

Section more.
Context {Rng : Type} {inherited : MIPROv2 Rng}.
Implicit Types (w : World Rng) (a : Arg.t) (v : Var.t).

(** The ways [compile] can go, after lines 54-76. *)
Lemma compile_cases w a w' evs out :
  compile w a = (w', evs, out) →
  ∃ w1 evs1 r,
    compile_setup w a = (w1, evs1, r)
    ∧ match r with
      | inl e => w' = w1 ∧ evs = evs1 ∧ out = Raise e
      | inr v =>
          if Var.minibatch v
             && (Arg.minibatch_size a >? Z.of_nat (length (Var.valset v)))%Z
          then w' = w1 ∧ evs = evs1
               ∧ out = Raise (minibatch_error (Var.valset v))
          else
            let asked :=
              if Arg.requires_permission_to_run a
              then [Call_get_user_confirmation (Arg.student a)] else [] in
            if negb (Arg.requires_permission_to_run a)
               || _get_user_confirmation (heap w1 !!! Arg.student a)
                    (Var.num_trials v) (Var.minibatch v)
                    (Arg.minibatch_size a) (Arg.minibatch_full_eval_steps a)
                    (Var.valset v) (Arg.program_aware_proposer a)
            then ∃ evs2, compile_optimize w1 a v None = (w', evs2, out)
                         ∧ evs = evs1 ++ asked ++ evs2
            else w' = w1
                 ∧ evs = evs1 ++ asked
                           ++ [Call_logger_info
                                 "Compilation aborted by the user."]
                 ∧ out = Return (Arg.student a)
      end.
Proof.
  unfold compile.
  destruct (compile_setup w a) as [[w1 evs1] r].
  intros Hrun. exists w1, evs1, r. split; [done|].
  destruct r as [e|v]; [by injection Hrun as <- <- <-|].
  destruct (_ && _); [by injection Hrun as <- <- <-|].
  destruct (compile_optimize w1 a v None) as [[w2 evs2] out2].
  destruct (Arg.requires_permission_to_run a);
    [destruct (_get_user_confirmation _ _ _ _ _ _ _)|];
    cbn in *; injection Hrun as <- <- <-; rewrite <- ?app_assoc; eauto.
Qed.

(** The ways lines 97-148 can go. *)
Lemma compile_optimize_cases w a v d w' evs out :
  compile_optimize w a v d = (w', evs, out) →
  let program := fresh (dom (heap w)) in
  let evaluate := {| devset := Var.valset v |} in
  let steps := [Call_deepcopy (Arg.student a) program; New_Evaluate evaluate;
                Call_propose_instructions program d] in
  ∃ r1 proposed,
    _propose_instructions (rng (self w)) (heap w !!! Arg.student a)
      (Var.trainset v) d (Arg.view_data_batch_size a)
      (Arg.program_aware_proposer a) (Arg.data_aware_proposer a)
      (Arg.tip_aware_proposer a) (Arg.fewshot_aware_proposer a)
    = (r1, proposed)
    ∧ match proposed with
      | inl e => evs = steps ∧ out = Raise e
      | inr ic =>
          let dc := if Var.zeroshot_opt v then None else d in
          let call := Call_optimize_prompt_parameters program ic dc evaluate
                        (Var.seed v) in
          ∃ r2 found,
            _optimize_prompt_parameters r1 (heap w !!! Arg.student a) ic dc
              evaluate (Var.valset v) (Var.num_trials v) (Var.minibatch v)
              (Arg.minibatch_size a) (Arg.minibatch_full_eval_steps a)
              (Var.seed v)
            = (r2, found)
            ∧ match found with
              | inl e => evs = steps ++ [call] ∧ out = Raise e
              | inr o =>
                  evs = steps ++ [call; Trials (trial_logs o)]
                  ∧ ∃ l, out = Return l ∧ heap w !! l = None
                         ∧ heap w' !! l = Some (best_program o)
              end
      end.
Proof.
  unfold compile_optimize, deepcopy. rewrite lookup_total_insert_eq.
  destruct (_propose_instructions _ _ _ _ _ _ _ _ _) as [r1 [e|ic]].
  { intros [= <- <- <-]. by eexists _, _. }
  destruct (_optimize_prompt_parameters _ _ _ _ _ _ _ _ _ _ _)
    as [r2 [e|o]] eqn:Hfound.
  { intros [= <- <- <-]. eexists _, _. split; [done|]. by eexists _, _. }
  intros [= <- <- <-]. eexists _, _. split; [done|]. cbn.
  eexists _, _. split; [done|]. split; [done|].
  eexists. split; [done|]. cbn. rewrite lookup_insert_eq. split; [|done].
  set (h := <[_ := program_after o]> _).
  destruct (heap w !! fresh (dom h)) as [p|] eqn:Hl; [|done].
  assert (is_Some (h !! fresh (dom h))) as [? Hin]; [|by rewrite fresh_loc_unused in Hin].
  subst h. rewrite !lookup_insert_ne; [by rewrite Hl| |].
  all: intros Heq; rewrite <- Heq, fresh_loc_unused in Hl; done.
Qed.

(** X9.  Only the effective seed counts.  The seed argument and the
    optimizer's default seed reach the run through [seed or self.seed]
    alone: two calls whose effective seeds agree make the same calls
    with the same arguments, end alike, and leave the same store and
    the same attributes, the default seed apart, which stays as it was. *)
Theorem effective_seed_decides w a (s1 s2 : option Z) (d1 d2 : Z) :
  or_int s1 d1 = or_int s2 d2 →
  let run1 := compile (with_default_seed d1 w) (with_seed s1 a) in
  let run2 := compile (with_default_seed d2 w) (with_seed s2 a) in
  run1.1.2 = run2.1.2
  ∧ run1.2 = run2.2
  ∧ heap run1.1.1 = heap run2.1.1
  ∧ attributes run1.1.1 = attributes run2.1.1
  ∧ seed (self run1.1.1) = d1
  ∧ seed (self run2.1.1) = d2.
Proof.
  intros Hseed. destruct w as [h [d b l au r]].
  unfold compile, compile_setup, with_default_seed, with_seed, attributes,
    set_rng, set_max_labeled_demos, set_max_bootstrapped_demos; cbn.
  rewrite <- Hseed.
  destruct (_set_random_seeds _) as [[e0 leave]|r0]; [done|].
  destruct (_set_and_validate_datasets _ _) as [e|[trainset valset]];
    [by destruct (Arg.max_bootstrapped_demos a), (Arg.max_labeled_demos a)|].
  destruct (Arg.max_bootstrapped_demos a) as [b'|],
           (Arg.max_labeled_demos a) as [l'|]; cbn.
  all: destruct (_set_hyperparams_from_run_mode _ _ _ _ _ _ _)
         as [r' [[num_trials valset'] minibatch]]; cbn.
  all: destruct (_ && _); [done|].
  all: destruct (Arg.requires_permission_to_run a);
         [destruct (_get_user_confirmation _ _ _ _ _ _ _)|]; cbn; try done.
  all: unfold compile_optimize, deepcopy; cbn.
  all: destruct (_propose_instructions _ _ _ _ _ _ _ _ _) as [r1 [e|ic]];
         cbn; [done|].
  all: destruct (_optimize_prompt_parameters _ _ _ _ _ _ _ _ _ _ _)
         as [r2 [e|o]]; cbn; done.
Qed.

(** X10.  Step 1 is switched off.  Whatever the demo limits, the
    proposer and the search are handed no demo candidates; and the
    teacher is never used: a call with another teacher, or none, is
    the same run. *)
Theorem bootstrap_switched_off w a w' evs out :
  compile w a = (w', evs, out) →
  (∀ program d, Call_propose_instructions program d ∈ evs → d = None)
  ∧ (∀ program ic dc ev s,
       Call_optimize_prompt_parameters program ic dc ev s ∈ evs → dc = None)
  ∧ ∀ teacher, compile w (with_teacher teacher a) = (w', evs, out).
Proof.
  intros Hrun. split_and!; [| |by intros teacher].
  - destruct (compile_inv _ _ _ _ _ Hrun)
      as (w1 & evs1 & r & evs2 & Hs & -> & Hlate & _).
    destruct (setup_events_quiet _ _ _ _ _ Hs) as [_ Hq].
    rewrite Forall_forall in Hq.
    intros program d [Hin|Hin]%elem_of_app; [by apply Hq in Hin|].
    revert Hrun. unfold compile. rewrite Hs.
    destruct r as [e|v].
    { intros [= _ Hevs _]. apply (f_equal length) in Hevs.
      rewrite length_app in Hevs.
      destruct evs2; [by apply elem_of_nil in Hin|cbn in Hevs; lia]. }
    destruct (_ && _).
    { intros [= _ Hevs _]. apply (f_equal length) in Hevs.
      rewrite length_app in Hevs.
      destruct evs2; [by apply elem_of_nil in Hin|cbn in Hevs; lia]. }
    destruct (compile_optimize w1 a v None) as [[w2 evs3] out2] eqn:Hopt.
    destruct (compile_optimize_inv _ _ _ _ _ _ _ Hopt)
      as (_ & _ & _ & _ & _ & tail & -> & Htail).
    destruct (Arg.requires_permission_to_run a);
      [destruct (_get_user_confirmation _ _ _ _ _ _ _)|]; cbn.
    all: rewrite <- ?app_assoc; intros [= _ Hevs%app_inv_head _]; subst evs2.
    all: try (destruct Htail as [->|[ic [->|[logs ->]]]]).
    all: cbn in Hin.
    all: repeat (apply elem_of_cons in Hin as [Hin|Hin];
                 [try discriminate; by simplify_eq|]).
    all: by apply elem_of_nil in Hin.
  - destruct (compile_inv _ _ _ _ _ Hrun)
      as (w1 & evs1 & r & evs2 & Hs & -> & Hlate & _ & _ & _ & _ & _ & Hcall).
    destruct (setup_events_quiet _ _ _ _ _ Hs) as [_ Hq].
    rewrite Forall_forall in Hq.
    intros program ic dc ev s [Hin|Hin]%elem_of_app; [by apply Hq in Hin|].
    by destruct (Hcall _ _ _ _ _ Hin) as (v & _ & _ & -> & _).
Qed.

(** X11.  The first step that fails decides how the run ends.  A call
    whose seed [_set_random_seeds] rejects raises the exception of the
    seeding after that one call, whatever its other arguments: the data
    sets are not looked at, and the demo limits passed with the call
    are not written.  A call whose seed is accepted and whose data sets
    [_set_and_validate_datasets] refuses raises the exception of the
    validation after two calls: the run mode is not consulted and the
    operator is not asked, the random state is the one just seeded, and
    the demo limits passed with the call are on the optimizer all the
    same.  Either way the store is as it was. *)
Theorem refused_datasets_end_run w a :
  let run := compile w a in
  let seed := or_int (Arg.seed a) (seed (self w)) in
  match _set_random_seeds seed with
  | inl (e0, leave) =>
      run.2 = Raise e0
      ∧ run.1.2 = [Call_set_random_seeds seed]
      ∧ heap run.1.1 = heap w
      ∧ rng (self run.1.1) = leave (rng (self w))
      ∧ max_bootstrapped_demos (self run.1.1)
        = max_bootstrapped_demos (self w)
      ∧ max_labeled_demos (self run.1.1) = max_labeled_demos (self w)
  | inr r =>
      ∀ e,
        _set_and_validate_datasets (Arg.trainset a) (Arg.valset a) = inl e →
        run.2 = Raise e
        ∧ run.1.2 = [Call_set_random_seeds seed;
                     Call_set_and_validate_datasets]
        ∧ heap run.1.1 = heap w
        ∧ rng (self run.1.1) = r
        ∧ max_bootstrapped_demos (self run.1.1)
          = overridden (Arg.max_bootstrapped_demos a)
              (max_bootstrapped_demos (self w))
        ∧ max_labeled_demos (self run.1.1)
          = overridden (Arg.max_labeled_demos a) (max_labeled_demos (self w))
  end.
Proof.
  unfold compile, compile_setup.
  destruct (_set_random_seeds _) as [[e0 leave]|r0]; [done|].
  intros e He. rewrite He. cbn.
  by destruct (Arg.max_bootstrapped_demos a), (Arg.max_labeled_demos a).
Qed.

(** X12.  Without [requires_permission_to_run] the operator is never
    asked, and every call that passes the setup and the minibatch check
    goes on to copy the student and to build the evaluator on the
    validation set the setup left. *)
Theorem no_permission_no_question w a w' evs out :
  Arg.requires_permission_to_run a = false →
  compile w a = (w', evs, out) →
  (∀ program, Call_get_user_confirmation program ∉ evs)
  ∧ ∀ w1 evs1 v,
      compile_setup w a = (w1, evs1, inr v) →
      Var.minibatch v
      && (Arg.minibatch_size a >? Z.of_nat (length (Var.valset v)))%Z = false →
      Call_deepcopy (Arg.student a) (fresh (dom (heap w))) ∈ evs
      ∧ New_Evaluate {| devset := Var.valset v |} ∈ evs.
Proof.
  intros Hperm. unfold compile. rewrite Hperm.
  destruct (compile_setup w a) as [[w1 evs1] r] eqn:Hs.
  destruct (compile_setup_inv _ _ _ _ _ Hs) as (Hheap & _).
  destruct (setup_events_quiet _ _ _ _ _ Hs) as [_ Hq].
  rewrite Forall_forall in Hq.
  destruct r as [e|v].
  { intros [= <- <- <-]. split; [|by intros ??? [=]].
    intros program Hin. by apply Hq in Hin. }
  destruct (_ && _) eqn:Hcheck.
  { intros [= <- <- <-]. split; [|intros ??? [= <- <- <-]; congruence].
    intros program Hin. by apply Hq in Hin. }
  destruct (compile_optimize w1 a v None) as [[w2 evs3] out2] eqn:Hopt.
  destruct (compile_optimize_inv _ _ _ _ _ _ _ Hopt)
    as (_ & _ & _ & _ & _ & tail & -> & Htail).
  intros [= <- <- <-]. split.
  - intros program [Hin|Hin]%elem_of_app; [by apply Hq in Hin|].
    destruct Htail as [->|[ic [->|[logs ->]]]]; cbn in Hin.
    all: repeat (apply elem_of_cons in Hin as [Hin|Hin]; [discriminate|]).
    all: by apply elem_of_nil in Hin.
  - intros ??? [= <- <- <-] _. rewrite <- Hheap.
    split; apply elem_of_app; right; by repeat constructor.
Qed.

(** X13.  No evaluator without consent.  In a call that requires
    permission, an evaluator is built only after the operator was asked
    and said yes: the events before the question are those of the setup
    alone, the question was put with the settings the setup left, and
    the evaluator is built on the validation set of those settings. *)
Theorem evaluator_after_consent w a w' evs out ev :
  Arg.requires_permission_to_run a = true →
  compile w a = (w', evs, out) →
  New_Evaluate ev ∈ evs →
  ∃ w1 before v after,
    compile_setup w a = (w1, before, inr v)
    ∧ evs = before ++ Call_get_user_confirmation (Arg.student a) :: after
    ∧ _get_user_confirmation (heap w !!! Arg.student a) (Var.num_trials v)
        (Var.minibatch v) (Arg.minibatch_size a)
        (Arg.minibatch_full_eval_steps a) (Var.valset v)
        (Arg.program_aware_proposer a) = true
    ∧ ev = {| devset := Var.valset v |}.
Proof.
  intros Hperm. unfold compile. rewrite Hperm.
  destruct (compile_setup w a) as [[w1 evs1] r] eqn:Hs.
  destruct (compile_setup_inv _ _ _ _ _ Hs) as (Hheap & _).
  destruct (setup_events_quiet _ _ _ _ _ Hs) as [Hq _].
  rewrite Forall_forall in Hq.
  destruct r as [e|v].
  { intros [= <- <- <-] Hin. by apply Hq in Hin. }
  destruct (_ && _).
  { intros [= <- <- <-] Hin. by apply Hq in Hin. }
  destruct (compile_optimize w1 a v None) as [[w2 evs3] out2] eqn:Hopt.
  destruct (compile_optimize_inv _ _ _ _ _ _ _ Hopt)
    as (_ & _ & _ & _ & _ & tail & -> & Htail).
  rewrite Hheap.
  destruct (_get_user_confirmation _ _ _ _ _ _ _) eqn:Hyes; cbn.
  - intros [= <- <- <-] Hin. exists w1, evs1, v. eexists.
    split_and!; [done|by rewrite <- app_assoc|done|].
    apply elem_of_app in Hin as [[Hin|Hin]%elem_of_app|Hin].
    + by apply Hq in Hin.
    + apply list_elem_of_singleton in Hin. discriminate.
    + destruct Htail as [->|[ic [->|[logs ->]]]]; cbn in Hin.
      all: repeat (apply elem_of_cons in Hin as [Hin|Hin];
                   [try discriminate; by simplify_eq|]).
      all: by apply elem_of_nil in Hin.
  - intros [= <- <- <-] [Hin|Hin]%elem_of_app; [by apply Hq in Hin|].
    repeat (apply elem_of_cons in Hin as [Hin|Hin]; [discriminate|]).
    by apply elem_of_nil in Hin.
Qed.

(** X14.  A proposer that fails ends the run before the search.  When
    [_propose_instructions] raises [e] on whatever it is given, every
    run that reaches the proposer raises [e]; the search is never
    called and no trial is made, although the student has been copied
    and the evaluator built by then. *)
Theorem failing_proposer_ends_run w a w' evs out (e : Exception) :
  (∀ r p t d n b1 b2 b3 b4,
     (_propose_instructions r p t d n b1 b2 b3 b4).2 = inl e) →
  compile w a = (w', evs, out) →
  (∀ program ic dc ev s,
     Call_optimize_prompt_parameters program ic dc ev s ∉ evs)
  ∧ (∀ logs, Trials logs ∉ evs)
  ∧ ∀ program d,
      Call_propose_instructions program d ∈ evs →
      out = Raise e
      ∧ Call_deepcopy (Arg.student a) program ∈ evs
      ∧ ∃ ev, New_Evaluate ev ∈ evs.
Proof.
  intros Hfail. unfold compile.
  destruct (compile_setup w a) as [[w1 evs1] r] eqn:Hs.
  destruct (setup_events_quiet _ _ _ _ _ Hs) as [_ Hq].
  rewrite Forall_forall in Hq.
  assert (Hearly : ∀ more,
            Forall (λ ev, ev = Call_get_user_confirmation (Arg.student a)
                          ∨ ∃ msg, ev = Call_logger_info msg) more →
            ∀ o,
            (∀ program ic dc ev s,
               Call_optimize_prompt_parameters program ic dc ev s
               ∉ evs1 ++ more)
            ∧ (∀ logs, Trials logs ∉ evs1 ++ more)
            ∧ ∀ program d,
                Call_propose_instructions program d ∈ evs1 ++ more →
                o = Raise e
                ∧ Call_deepcopy (Arg.student a) program ∈ evs1 ++ more
                ∧ ∃ ev, New_Evaluate ev ∈ evs1 ++ more).
  { intros more Hmore o. rewrite Forall_forall in Hmore.
    split_and!.
    - intros ????? [Hin|Hin]%elem_of_app; [by apply Hq in Hin|].
      apply Hmore in Hin as [?|[??]]; discriminate.
    - intros ? [Hin|Hin]%elem_of_app; [by apply Hq in Hin|].
      apply Hmore in Hin as [?|[??]]; discriminate.
    - intros ?? [Hin|Hin]%elem_of_app; [by apply Hq in Hin|].
      apply Hmore in Hin as [?|[??]]; discriminate. }
  destruct r as [e'|v].
  { intros [= <- <- <-]. rewrite <- (app_nil_r evs1). by apply Hearly. }
  destruct (_ && _).
  { intros [= <- <- <-]. rewrite <- (app_nil_r evs1). by apply Hearly. }
  assert (Hopt : ∃ w2 program ev,
            compile_optimize w1 a v None
            = (w2, [Call_deepcopy (Arg.student a) program; New_Evaluate ev;
                    Call_propose_instructions program None], Raise e)).
  { unfold compile_optimize, deepcopy.
    match goal with
    | |- context [_propose_instructions ?r ?p ?t ?d ?n ?b1 ?b2 ?b3 ?b4] =>
        pose proof (Hfail r p t d n b1 b2 b3 b4) as Hp;
        destruct (_propose_instructions r p t d n b1 b2 b3 b4) as [r1 res]
    end.
    cbn in Hp. subst res. eauto. }
  destruct Hopt as (w2 & copy & ev & ->).
  assert (Hrun : ∀ asked,
            Forall (λ ev, ev = Call_get_user_confirmation (Arg.student a))
              asked →
            let evs := (evs1 ++ asked)
                       ++ [Call_deepcopy (Arg.student a) copy; New_Evaluate ev;
                           Call_propose_instructions copy None] in
            (∀ program ic dc ev s,
               Call_optimize_prompt_parameters program ic dc ev s ∉ evs)
            ∧ (∀ logs, Trials logs ∉ evs)
            ∧ ∀ program d,
                Call_propose_instructions program d ∈ evs →
                Raise e = Raise e
                ∧ Call_deepcopy (Arg.student a) program ∈ evs
                ∧ ∃ ev, New_Evaluate ev ∈ evs).
  { intros asked Hasked. rewrite Forall_forall in Hasked. cbn zeta.
    split_and!.
    - intros ????? [[Hin|Hin]%elem_of_app|Hin]%elem_of_app.
      + by apply Hq in Hin.
      + by apply Hasked in Hin.
      + repeat (apply elem_of_cons in Hin as [Hin|Hin]; [discriminate|]).
        by apply elem_of_nil in Hin.
    - intros ? [[Hin|Hin]%elem_of_app|Hin]%elem_of_app.
      + by apply Hq in Hin.
      + by apply Hasked in Hin.
      + repeat (apply elem_of_cons in Hin as [Hin|Hin]; [discriminate|]).
        by apply elem_of_nil in Hin.
    - intros program d [[Hin|Hin]%elem_of_app|Hin]%elem_of_app.
      + by apply Hq in Hin.
      + by apply Hasked in Hin.
      + repeat (apply elem_of_cons in Hin as [Hin|Hin];
                [try discriminate|]); [|by apply elem_of_nil in Hin].
        injection Hin as -> ->.
        split_and!; [done| |exists ev]; apply elem_of_app; right;
          by repeat constructor. }
  destruct (Arg.requires_permission_to_run a);
    [destruct (_get_user_confirmation _ _ _ _ _ _ _)|]; cbn.
  - intros [= <- <- <-]. apply Hrun. by repeat constructor.
  - intros [= <- <- <-]. apply Hearly.
    constructor; [by left|]. constructor; [right; eauto|constructor].
  - intros [= <- <- <-].
    specialize (Hrun [] (Forall_nil_2 _)). cbn zeta in Hrun.
    by rewrite app_nil_r in Hrun.
Qed.

(** X15.  A search that fails never yields a program.  When
    [_optimize_prompt_parameters] raises [e] on whatever it is given,
    every run that reaches the search raises [e], no trials are
    recorded, and the only program [compile] can return is the student
    itself, on the operator's refusal. *)
Theorem failing_search_ends_run w a w' evs out (e : Exception) :
  (∀ r p ic dc ev vs n mb size steps s,
     (_optimize_prompt_parameters r p ic dc ev vs n mb size steps s).2
     = inl e) →
  compile w a = (w', evs, out) →
  (∀ logs, Trials logs ∉ evs)
  ∧ (∀ l, out = Return l →
          l = Arg.student a
          ∧ Call_logger_info "Compilation aborted by the user." ∈ evs)
  ∧ ∀ program ic dc ev s,
      Call_optimize_prompt_parameters program ic dc ev s ∈ evs →
      out = Raise e.
Proof.
  intros Hfail Hrun.
  destruct (compile_cases _ _ _ _ _ Hrun) as (w1 & evs1 & r & Hs & Hcase).
  destruct (setup_events_quiet _ _ _ _ _ Hs) as [_ Hq].
  rewrite Forall_forall in Hq.
  assert (Hsetup : ∀ ev, setup_event ev = false → ev ∈ evs1 → False).
  { intros ev Hev Hin. apply Hq in Hin. congruence. }
  destruct r as [e'|v].
  { destruct Hcase as (-> & -> & ->). split_and!; [|done|].
    - intros logs Hin. by destruct (Hsetup (Trials logs)).
    - intros ????? Hin. exfalso. by eapply Hsetup; [|exact Hin]. }
  destruct (_ && _).
  { destruct Hcase as (-> & -> & ->). split_and!; [|done|].
    - intros logs Hin. by destruct (Hsetup (Trials logs)).
    - intros ????? Hin. exfalso. by eapply Hsetup; [|exact Hin]. }
  cbn zeta in Hcase.
  set (asked := if Arg.requires_permission_to_run a then _ else _) in Hcase.
  assert (Hasked : ∀ ev, ev ∈ asked →
            ev = Call_get_user_confirmation (Arg.student a)).
  { subst asked. intros ev Hin.
    destruct (Arg.requires_permission_to_run a);
      [by apply list_elem_of_singleton in Hin|by apply elem_of_nil in Hin]. }
  destruct (_ || _).
  - destruct Hcase as (evs2 & Hopt & ->).
    destruct (compile_optimize_cases _ _ _ _ _ _ _ Hopt)
      as (r1 & proposed & _ & Hp).
    assert (Hfew : ∀ tail ev,
              ev ∈ evs1 ++ asked ++ tail → setup_event ev = false →
              (∀ p, ev ≠ Call_get_user_confirmation p) → ev ∈ tail).
    { intros tail ev [Hin|[Hin|Hin]%elem_of_app]%elem_of_app Hev Hne;
        [by destruct (Hsetup ev)|by apply Hasked, Hne in Hin|done]. }
    destruct proposed as [e'|ic].
    { destruct Hp as [-> ->]. split_and!; [|done|].
      - intros logs Hin. apply Hfew in Hin; [|done..]. cbn in Hin.
        repeat (apply elem_of_cons in Hin as [Hin|Hin]; [discriminate|]).
        by apply elem_of_nil in Hin.
      - intros ????? Hin. apply Hfew in Hin; [|done..]. cbn in Hin.
        repeat (apply elem_of_cons in Hin as [Hin|Hin]; [discriminate|]).
        by apply elem_of_nil in Hin. }
    destruct Hp as (r2 & found & Hfound & Hp).
    specialize (Hfail r1 (heap w1 !!! Arg.student a) ic
                  (if Var.zeroshot_opt v then None else None)
                  {| devset := Var.valset v |} (Var.valset v)
                  (Var.num_trials v) (Var.minibatch v) (Arg.minibatch_size a)
                  (Arg.minibatch_full_eval_steps a) (Var.seed v)).
    rewrite Hfound in Hfail. cbn in Hfail. subst found.
    destruct Hp as [-> ->]. split_and!; [|done..].
    intros logs Hin. apply Hfew in Hin; [|done..]. cbn in Hin.
    repeat (apply elem_of_cons in Hin as [Hin|Hin]; [discriminate|]).
    by apply elem_of_nil in Hin.
  - destruct Hcase as (-> & -> & ->). split_and!.
    + intros logs [Hin|[Hin|Hin]%elem_of_app]%elem_of_app.
      * by destruct (Hsetup (Trials logs)).
      * by apply Hasked in Hin.
      * by apply list_elem_of_singleton in Hin.
    + intros l [= <-]. split; [done|].
      rewrite !elem_of_app. right. right. by apply list_elem_of_singleton.
    + intros ????? [Hin|[Hin|Hin]%elem_of_app]%elem_of_app.
      * exfalso. by eapply Hsetup; [|exact Hin].
      * by apply Hasked in Hin.
      * by apply list_elem_of_singleton in Hin.
Qed.

(** X16.  The store changes only when the optimization starts: a run
    in which no evaluator is built, because the setup or the minibatch
    check raised or the operator refused, leaves every program of the
    store as it was and adds none. *)
Theorem store_untouched_before_optimization w a w' evs out :
  compile w a = (w', evs, out) →
  (∀ ev, New_Evaluate ev ∉ evs) →
  heap w' = heap w.
Proof.
  intros Hrun Hnone.
  destruct (compile_cases _ _ _ _ _ Hrun) as (w1 & evs1 & r & Hs & Hcase).
  destruct (compile_setup_inv _ _ _ _ _ Hs) as (Hheap & _).
  destruct r as [e|v]; [by destruct Hcase as (-> & _)|].
  destruct (_ && _); [by destruct Hcase as (-> & _)|].
  cbn zeta in Hcase. destruct (_ || _); [|by destruct Hcase as (-> & _)].
  destruct Hcase as (evs2 & Hopt & ->).
  destruct (compile_optimize_inv _ _ _ _ _ _ _ Hopt)
    as (_ & _ & _ & _ & _ & tail & -> & _).
  destruct (Hnone {| devset := Var.valset v |}).
  rewrite !elem_of_app. right. right. left. by repeat constructor.
Qed.
End more.



(** *** Scenarios *)

(** No seed on an optimizer built with seed 9, and seed 9 on an
    optimizer built with seed 4, are the same run. *)
Lemma effective_seed_decides_witness :
  let a := call 2 None None false 25 false in
  let run1 := @compile Z (base true ["no"]) (with_default_seed 9 (world 0))
                (with_seed None a) in
  let run2 := @compile Z (base true ["no"]) (with_default_seed 4 (world 0))
                (with_seed (Some 9%Z) a) in
  run1.1.2 = run2.1.2 ∧ run1.2 = run2.2.
Proof.
  intros a.
  destruct (effective_seed_decides (inherited := base true ["no"])
              (world 0) a None (Some 9%Z) 9 4) as (? & ? & _);
    [reflexivity|done].
Defined.

(** With the limits 4 and 16 the search is handed no demo candidates,
    and a teacher changes nothing. *)
Lemma bootstrap_switched_off_witness :
  let a := call 2 None None false 25 false in
  let run := @compile Z (base true ["no"]) (world 9) a in
  Call_optimize_prompt_parameters 2%positive [["no"]] None
    {| devset := five |} 9 ∈ run.1.2
  ∧ @compile Z (base true ["no"]) (world 9) (with_teacher (Some 1%positive) a)
    = (run.1.1, run.1.2, run.2).
Proof.
  intros a run.
  destruct (bootstrap_switched_off (inherited := base true ["no"])
              (world 9) a run.1.1 run.1.2 run.2 (run_eta _ _))
    as (_ & _ & Hteacher).
  split; [|apply Hteacher]. vm_compute. by repeat constructor.
Defined.

(** A call without training data raises the error of the validation.  A
    call with the seed -1 raises the error of the seeding, and the
    limit of 0 it passes is not written. *)
Lemma refused_datasets_end_run_witness :
  let run := @compile Z (base true ["no"]) (world 9) no_data in
  let rejected :=
    @compile Z (base true ["no"]) (world 9)
      (call 2 (Some 0%Z) (Some (-1)%Z) false 25 false) in
  run.2 = Raise (ValueError "Trainset cannot be empty.")
  ∧ run.1.2 = [Call_set_random_seeds 9; Call_set_and_validate_datasets]
  ∧ heap run.1.1 = heap (world 9)
  ∧ rejected.2 = Raise (ValueError "Seed must be between 0 and 2**32 - 1")
  ∧ rejected.1.2 = [Call_set_random_seeds (-1)]
  ∧ max_bootstrapped_demos (self rejected.1.1) = 4%Z.
Proof.
  intros run rejected.
  destruct (refused_datasets_end_run (inherited := base true ["no"])
              (world 9) no_data (ValueError "Trainset cannot be empty."))
    as (? & ? & ? & _); [reflexivity|].
  destruct (refused_datasets_end_run (inherited := base true ["no"])
              (world 9) (call 2 (Some 0%Z) (Some (-1)%Z) false 25 false))
    as (? & ? & _ & _ & ? & _).
  by split_and!.
Defined.

(** An operator who would refuse is not asked when no permission is
    required. *)
Lemma no_permission_no_question_witness :
  let a := call 2 None None false 25 false in
  let run := @compile Z (base false ["no"]) (world 9) a in
  (Call_get_user_confirmation 1%positive ∉ run.1.2)
  ∧ New_Evaluate {| devset := five |} ∈ run.1.2.
Proof.
  intros a run.
  destruct (no_permission_no_question (inherited := base false ["no"])
              (world 9) a run.1.1 run.1.2 run.2 eq_refl (run_eta _ _))
    as (Hnot & Hgo).
  split; [apply Hnot|].
  pose (s := @compile_setup Z (base false ["no"]) (world 9) a).
  destruct (Hgo s.1.1 s.1.2
              {| Var.seed := 9; Var.trainset := five; Var.valset := five;
                 Var.zeroshot_opt := false; Var.num_trials := 2;
                 Var.minibatch := false |}) as [_ Hev]; [..|exact Hev].
  - apply setup_eta. vm_compute. reflexivity.
  - reflexivity.
Defined.

(** The evaluator of a run the operator agreed to. *)
Lemma evaluator_after_consent_witness :
  let a := call 30 None None true 5 true in
  let run := @compile Z (base true ["no"]) (world 9) a in
  ∃ before after,
    run.1.2 = before ++ Call_get_user_confirmation 1%positive :: after.
Proof.
  intros a run.
  destruct (evaluator_after_consent (inherited := base true ["no"])
              (world 9) a run.1.1 run.1.2 run.2 {| devset := five |}
              eq_refl (run_eta _ _))
    as (w1 & before & v & after & _ & Hevs & _).
  - vm_compute. by repeat constructor.
  - by exists before, after.
Defined.

(** A proposer that fails. *)
Lemma failing_proposer_ends_run_witness :
  let a := call 2 None None false 25 false in
  let run := @compile Z (failing true false) (world 9) a in
  run.2 = Raise (OtherError "proposer")
  ∧ Call_deepcopy 1%positive 2%positive ∈ run.1.2.
Proof.
  intros a run.
  destruct (failing_proposer_ends_run (inherited := failing true false)
              (world 9) a run.1.1 run.1.2 run.2 (OtherError "proposer"))
    as (_ & _ & Hreached).
  - reflexivity.
  - apply run_eta.
  - destruct (Hreached 2%positive None) as (? & ? & _); [|done].
    vm_compute. by repeat constructor.
Defined.

(** A search that fails. *)
Lemma failing_search_ends_run_witness :
  let a := call 2 None None false 25 false in
  let run := @compile Z (failing false true) (world 9) a in
  run.2 = Raise (OtherError "search").
Proof.
  intros a run.
  destruct (failing_search_ends_run (inherited := failing false true)
              (world 9) a run.1.1 run.1.2 run.2 (OtherError "search"))
    as (_ & _ & Hreached).
  - reflexivity.
  - apply run_eta.
  - apply (Hreached 2%positive [["no"]] None {| devset := five |} 9%Z).
    vm_compute. by repeat constructor.
Defined.

(** A run the operator refuses. *)
Lemma store_untouched_before_optimization_witness :
  let a := call 30 None None true 5 true in
  let run := @compile Z (base false ["no"]) (world 9) a in
  heap run.1.1 = heap (world 9).
Proof.
  intros a run.
  apply (store_untouched_before_optimization (inherited := base false ["no"])
           (world 9) a run.1.1 run.1.2 run.2 (run_eta _ _)).
  intros ev. vm_compute. intros Hin.
  repeat (apply elem_of_cons in Hin as [Hin|Hin]; [discriminate|]).
  by apply elem_of_nil in Hin.
Defined.

Import Tracing Session.

(** ** Sequences of callback events *)

Section session.
Implicit Types (self : LangfuseCallback) (e : Event) (es : list Event).

(** What one event does: it appends at most two requests, keeps the
    session id, and touches the dictionaries under its own call id
    only. *)
Lemma handle_frame self e :
  session_id (handle self e).1 = session_id self
  ∧ (∃ new, langfuse (handle self e).1 = langfuse self ++ new
            ∧ (length new ≤ 2)%nat)
  ∧ ∀ k, k ≠ call_id_of e →
      traces (handle self e).1 !! k = traces self !! k
      ∧ observations (handle self e).1 !! k = observations self !! k.
Proof.
  destruct e as [a c i x|c o x|a c i x|c o x]; cbn.
  - unfold on_module_start.
    destruct (get (traces self) a) as [t|], (get (observations self) a) as [ob|];
      cbn; (split_and!; [done|eexists; split; [reflexivity|cbn; lia]|]);
      intros k Hk; by rewrite ?lookup_insert_ne.
  - unfold on_module_end. destruct (_get_observation_status x) as [lv st].
    destruct (observations self !! c) as [ob|];
      [|destruct (traces self !! c) as [t|]]; cbn.
    1,2: split_and!; [done|eexists; split; [reflexivity|cbn; lia]|];
      intros k Hk; by rewrite ?lookup_delete_ne.
    split_and!; [done|exists []; by rewrite app_nil_r; cbn; auto with lia|done].
  - unfold on_lm_start.
    destruct (get (traces self) a) as [t|], (get (observations self) a) as [ob|];
      cbn; (split_and!; [done|rewrite <- ?app_assoc;
                               eexists; split; [reflexivity|cbn; lia]|]);
      intros k Hk; by rewrite ?lookup_insert_ne.
  - unfold on_lm_end. destruct (_get_observation_status x) as [lv st].
    destruct (traces self !! c) as [t|]; cbn;
      destruct (observations self !! c) as [ob|]; cbn.
    all: split_and!; [done|rewrite <- ?app_assoc;
                           first [eexists; split; [reflexivity|cbn; lia]
                                 |exists []; rewrite app_nil_r; cbn; auto with lia]|].
    all: intros k Hk; by rewrite ?lookup_delete_ne.
Qed.

Lemma run_snoc self es e : run self (es ++ [e]) = (handle (run self es) e).1.
Proof. unfold run. by rewrite foldl_app. Qed.

Lemma run_lookup self es k :
  Forall (λ e, call_id_of e ≠ k) es →
  traces (run self es) !! k = traces self !! k
  ∧ observations (run self es) !! k = observations self !! k.
Proof.
  induction es as [|e es IH] using rev_ind; [by intros _|].
  intros [Hes He]%Forall_app. rewrite Forall_singleton in He.
  rewrite run_snoc.
  destruct (handle_frame (run self es) e) as (_ & _ & Hk).
  destruct (Hk k) as [-> ->]; [congruence|]. by apply IH.
Qed.

(** X1.  Events of other calls leave a call's entries alone: whatever
    sequence of events runs, the entries of both dictionaries under a
    call id that none of the events carries stay as they were.  The
    session id never changes, and the requests already sent stay in
    place, followed by at most two new ones per event. *)
Theorem other_calls_untouched self es k :
  Forall (λ e, call_id_of e ≠ k) es →
  traces (run self es) !! k = traces self !! k
  ∧ observations (run self es) !! k = observations self !! k
  ∧ session_id (run self es) = session_id self
  ∧ ∃ new, langfuse (run self es) = langfuse self ++ new
           ∧ (length new ≤ 2 * length es)%nat.
Proof.
  intros Hes. destruct (run_lookup self es k Hes) as [Ht Ho].
  split_and!; [done..| |]; clear.
  - induction es as [|e es IH] using rev_ind; [done|].
    rewrite run_snoc. by destruct (handle_frame (run self es) e) as (-> & _).
  - induction es as [|e es IH] using rev_ind.
    { exists []. by rewrite app_nil_r. }
    destruct IH as (new & Hnew & Hlen). rewrite run_snoc.
    destruct (handle_frame (run self es) e) as (_ & (more & -> & Hmore) & _).
    exists (new ++ more). rewrite Hnew, <- app_assoc. split; [done|].
    rewrite !length_app. cbn. lia.
Qed.

(** X2.  A start and the end that belongs to it leave no entry behind:
    for a call id that is in neither dictionary, a module start followed
    by the module end, and an LM start followed by the LM end, raise
    nothing and give both dictionaries back as they were, whatever the
    ambient call id, the outputs and the exception. *)
Theorem start_end_round_trip self (active : option string) (c : string)
    (instance : Instance) (inputs : string) (outputs : option Any)
    (lm_outputs : option string) (exception : option Exception) :
  traces self !! c = None →
  observations self !! c = None →
  let m := on_module_end (on_module_start self active c instance inputs)
             c outputs exception in
  let l := on_lm_end (on_lm_start self active c instance inputs)
             c lm_outputs exception in
  m.2 = None ∧ traces m.1 = traces self ∧ observations m.1 = observations self
  ∧ l.2 = None ∧ traces l.1 = traces self ∧ observations l.1 = observations self.
Proof.
  intros Ht Ho. unfold on_module_end, on_lm_end, on_module_start, on_lm_start.
  destruct (_get_observation_status exception) as [lv st].
  destruct (get (traces self) active) as [t|],
           (get (observations self) active) as [ob|]; cbn.
  all: rewrite ?lookup_insert_eq, ?Ho, ?Ht; cbn.
  all: rewrite ?lookup_insert_eq, ?Ho, ?Ht; cbn.
  all: rewrite ?delete_insert_eq, ?delete_id by done.
  all: by rewrite ?delete_id by done.
Qed.

Lemma module_end_clears self c outputs exception :
  (is_Some (observations self !! c) ∧ traces self !! c = None)
  ∨ (observations self !! c = None ∧ is_Some (traces self !! c)) →
  let m := on_module_end self c outputs exception in
  m.2 = None ∧ traces m.1 !! c = None ∧ observations m.1 !! c = None.
Proof.
  unfold on_module_end. destruct (_get_observation_status exception) as [lv st].
  intros [[[ob Ho] Ht]|[Ho [t Ht]]]; rewrite Ho, ?Ht; cbn;
    by rewrite lookup_delete_eq, ?Ho, ?Ht.
Qed.

Lemma lm_end_clears self c outputs exception :
  is_Some (observations self !! c) →
  let l := on_lm_end self c outputs exception in
  l.2 = None ∧ traces l.1 !! c = None ∧ observations l.1 !! c = None.
Proof.
  unfold on_lm_end. destruct (_get_observation_status exception) as [lv st].
  intros [ob Hob].
  destruct (traces self !! c) as [t|] eqn:Ht; cbn; rewrite Hob; cbn;
    by rewrite ?lookup_delete_eq.
Qed.

(** X3.  No leak across other calls: between the start of a call and
    its end, events of any other calls may run in any order and number,
    failing or not; the end of the call still raises nothing and leaves
    no entry under the call id in either dictionary. *)
Theorem call_ends_clean self (active : option string) (c : string)
    (instance : Instance) (inputs : string) es (outputs : option Any)
    (lm_outputs : option string) (exception : option Exception) :
  traces self !! c = None →
  observations self !! c = None →
  Forall (λ e, call_id_of e ≠ c) es →
  let m := on_module_end
             (run (on_module_start self active c instance inputs) es)
             c outputs exception in
  let l := on_lm_end
             (run (on_lm_start self active c instance inputs) es)
             c lm_outputs exception in
  m.2 = None ∧ traces m.1 !! c = None ∧ observations m.1 !! c = None
  ∧ l.2 = None ∧ traces l.1 !! c = None ∧ observations l.1 !! c = None.
Proof.
  intros Ht Ho Hes. cbn zeta.
  destruct (run_lookup (on_module_start self active c instance inputs) es c
              Hes) as [Hmt Hmo].
  destruct (run_lookup (on_lm_start self active c instance inputs) es c
              Hes) as [Hlt Hlo].
  destruct (module_end_clears
              (run (on_module_start self active c instance inputs) es)
              c outputs exception) as (? & ? & ?).
  { rewrite Hmt, Hmo. unfold on_module_start.
    destruct (get (traces self) active) as [t|],
             (get (observations self) active) as [ob|]; cbn;
      rewrite ?lookup_insert_eq, ?Ht, ?Ho; eauto. }
  destruct (lm_end_clears
              (run (on_lm_start self active c instance inputs) es)
              c lm_outputs exception) as (? & ? & ?).
  { rewrite Hlo. unfold on_lm_start.
    destruct (get (traces self) active) as [t|],
             (get (observations self) active) as [ob|]; cbn;
      rewrite ?lookup_insert_eq; eauto. }
  by split_and!.
Qed.

(** X4.  Units started inside a started unit are nested under it.  Once
    a module start or an LM start with call id [c] has run, a module or
    an LM that starts while [c] is the ambient call id never opens a
    trace of its own: its span or generation is created under the
    client made for [c], which is the trace [c] for a root module, the
    span ["span-" ++ c] for a nested module, and the generation
    ["generation-" ++ c] for an LM, root or nested. *)
Theorem children_nest self (active : option string) (c : string)
    (instance : Instance) (inputs : string)
    (c' : string) (instance' : Instance) (inputs' : string) :
  observations self !! c = None →
  let m := on_module_start self active c instance inputs in
  let l := on_lm_start self active c instance inputs in
  let under_m :=
    match get (observations self) active, get (traces self) active with
    | None, None => TraceClient c
    | _, _ => SpanClient ("span-" ++ c)
    end in
  let under_l := GenerationClient ("generation-" ++ c) in
  langfuse (on_module_start m (Some c) c' instance' inputs')
  = langfuse m ++ [span under_m (class_name instance') ("span-" ++ c') inputs']
  ∧ langfuse (on_lm_start m (Some c) c' instance' inputs')
    = langfuse m ++ [generation under_m (class_name instance')
                       ("generation-" ++ c') inputs' (model instance')]
  ∧ langfuse (on_module_start l (Some c) c' instance' inputs')
    = langfuse l ++ [span under_l (class_name instance') ("span-" ++ c')
                       inputs']
  ∧ langfuse (on_lm_start l (Some c) c' instance' inputs')
    = langfuse l ++ [generation under_l (class_name instance')
                       ("generation-" ++ c') inputs' (model instance')].
Proof.
  intros Ho. unfold on_module_start, on_lm_start.
  destruct (get (observations self) active) as [ob|],
           (get (traces self) active) as [t|]; cbn.
  all: rewrite ?lookup_insert_eq, ?Ho; cbn.
  all: rewrite ?lookup_insert_eq; cbn.
  all: destruct (traces self !! c); cbn; by rewrite <- ?app_assoc.
Qed.

Lemma handle_well_kinded self e :
  well_kinded self →
  well_kinded (handle self e).1
  ∧ ∃ new, langfuse (handle self e).1 = langfuse self ++ new
           ∧ Forall well_targeted new.
Proof.
  intros [Ht Ho].
  assert (Hins_t : ∀ (m : gmap string Client) c,
            (∀ k x, m !! k = Some x → x = TraceClient k) →
            ∀ k x, <[c := TraceClient c]> m !! k = Some x → x = TraceClient k).
  { intros m c Hm k x. destruct (decide (c = k)) as [->|Hne].
    - rewrite lookup_insert_eq. by intros [= <-].
    - rewrite lookup_insert_ne by done. apply Hm. }
  assert (Hins_o : ∀ (m : gmap string Client) c y,
            y = SpanClient ("span-" ++ c)
            ∨ y = GenerationClient ("generation-" ++ c) →
            (∀ k x, m !! k = Some x →
               x = SpanClient ("span-" ++ k)
               ∨ x = GenerationClient ("generation-" ++ k)) →
            ∀ k x, <[c := y]> m !! k = Some x →
              x = SpanClient ("span-" ++ k)
              ∨ x = GenerationClient ("generation-" ++ k)).
  { intros m c y Hy Hm k x. destruct (decide (c = k)) as [->|Hne].
    - rewrite lookup_insert_eq. by intros [= <-].
    - rewrite lookup_insert_ne by done. apply Hm. }
  assert (Hdel : ∀ (m : gmap string Client) c (P : string → Client → Prop),
            (∀ k x, m !! k = Some x → P k x) →
            ∀ k x, delete c m !! k = Some x → P k x).
  { intros m c P Hm k x. destruct (decide (c = k)) as [->|Hne].
    - by rewrite lookup_delete_eq.
    - rewrite lookup_delete_ne by done. apply Hm. }
  destruct e as [a c i x|c o x|a c i x|c o x]; cbn.
  - unfold on_module_start.
    destruct (get (traces self) a) as [t|], (get (observations self) a) as [ob|];
      cbn; (split; [split; cbn; eauto|]);
      eexists; (split; [reflexivity|]); by repeat constructor.
  - unfold on_module_end. destruct (_get_observation_status x) as [lv st].
    destruct (observations self !! c) as [ob|] eqn:Hob;
      [|destruct (traces self !! c) as [t|] eqn:Htr]; cbn.
    + split; [split; cbn; [done|by apply Hdel]|].
      eexists; split; [reflexivity|]. repeat constructor.
      by destruct (Ho _ _ Hob) as [-> | ->].
    + split; [split; cbn; [by apply Hdel with (P := λ k x, x = TraceClient k)|done]|].
      eexists; split; [reflexivity|]. repeat constructor.
      by rewrite (Ht _ _ Htr).
    + split; [done|]. exists []. by rewrite app_nil_r.
  - unfold on_lm_start.
    destruct (get (traces self) a) as [t|], (get (observations self) a) as [ob|];
      cbn; (split; [split; cbn; eauto|]); rewrite <- ?app_assoc;
      eexists; (split; [reflexivity|]); by repeat constructor.
  - unfold on_lm_end. destruct (_get_observation_status x) as [lv st].
    destruct (traces self !! c) as [t|] eqn:Htr; cbn;
      destruct (observations self !! c) as [ob|] eqn:Hob; cbn.
    all: split;
      [split; cbn;
       first [done|by apply Hdel with (P := λ k x, x = TraceClient k)
             |by apply Hdel]|].
    all: rewrite <- ?app_assoc;
      first [eexists; split; [reflexivity|]|exists []; by rewrite app_nil_r].
    all: repeat constructor.
    all: try by rewrite (Ht _ _ Htr).
    all: by destruct (Ho _ _ Hob) as [-> | ->].
Qed.

(** X5.  The clients are used for what they are.  Starting from a
    callback as [__init__] leaves it, after any sequence of events the
    dictionary of traces holds trace clients and the dictionary of
    observations holds spans and generations, each under the call id it
    was made for; and in the requests sent, [end] is called on spans and
    generations only and [update] on traces only. *)
Theorem clients_well_targeted (session : string) es :
  well_kinded (run (init session) es)
  ∧ Forall well_targeted (langfuse (run (init session) es)).
Proof.
  induction es as [|e es [IHk IHt]] using rev_ind.
  { split; [|constructor]. split; intros k c; cbn; by rewrite lookup_empty. }
  rewrite run_snoc.
  destruct (handle_well_kinded _ e IHk) as (Hk & new & -> & Hnew).
  split; [done|]. by apply Forall_app.
Qed.

(** X6.  An LM end for a call id that has a trace but no observation
    (the id of a running top-level module) fails with [KeyError] only
    after the damage is done: the trace has been updated with the
    outputs and removed.  The module end that arrives later for the same
    id then fails with [KeyError] as well and sends nothing. *)
Theorem unmatched_lm_end_drops_trace self (c : string) (tr : Client)
    (lm_outputs : option string) (outputs : option Any)
    (exception exception' : option Exception) :
  traces self !! c = Some tr →
  observations self !! c = None →
  let l := on_lm_end self c lm_outputs exception in
  let m := on_module_end l.1 c outputs exception' in
  l.2 = Some (KeyError c)
  ∧ langfuse l.1 = langfuse self ++ [update tr lm_outputs]
  ∧ traces l.1 = delete c (traces self)
  ∧ observations l.1 = observations self
  ∧ m = (l.1, Some (KeyError c)).
Proof.
  intros Ht Ho. unfold on_lm_end, on_module_end.
  destruct (_get_observation_status exception) as [lv st].
  destruct (_get_observation_status exception') as [lv' st'].
  rewrite Ht; cbn. rewrite Ho; cbn. by rewrite Ho, lookup_delete_eq.
Qed.

Lemma handle_session self e :
  ∃ new, langfuse (handle self e).1 = langfuse self ++ new
         ∧ (∀ name id sid input,
              trace name id sid input ∈ new → sid = session_id self)
         ∧ (exception_of e = None → ∀ r, r ∈ new → ¬ reports_error r).
Proof.
  assert (Hnil : ∃ new : list Request,
            langfuse self = langfuse self ++ new
            ∧ (∀ name id sid input,
                 trace name id sid input ∈ new → sid = session_id self)
            ∧ (∀ r, r ∈ new → ¬ reports_error r)).
  { exists []. rewrite app_nil_r. split_and!; [done|..];
      intros; by match goal with H : _ ∈ [] |- _ => apply elem_of_nil in H end. }
  destruct e as [a c i x|c o x|a c i x|c o x]; cbn.
  - unfold on_module_start.
    destruct (get (traces self) a) as [t|], (get (observations self) a) as [ob|];
      cbn; eexists; (split; [reflexivity|]); split.
    all: try (intros name id sid input Hin).
    all: try (intros _ r Hin).
    all: apply list_elem_of_singleton in Hin; simplify_eq; cbn.
    all: first [done|by intros []].
  - unfold on_module_end.
    destruct x as [x|]; cbn;
      (destruct (observations self !! c) as [ob|];
       [|destruct (traces self !! c) as [t|]]); cbn.
    all: try (destruct Hnil as (new & ? & ? & ?); exists new; by split_and!).
    all: eexists; (split; [reflexivity|]); split.
    all: try (intros name id sid input Hin).
    all: try (intros Hx r Hin).
    all: apply list_elem_of_singleton in Hin; simplify_eq; cbn.
    all: first [done|by intros []|by intros [?|?]].
  - unfold on_lm_start.
    destruct (get (traces self) a) as [t|], (get (observations self) a) as [ob|];
      cbn; rewrite <- ?app_assoc; eexists; (split; [reflexivity|]); split.
    all: try (intros name id sid input Hin).
    all: try (intros _ r Hin).
    all: repeat (apply elem_of_cons in Hin as [Hin|Hin];
                 [simplify_eq; cbn; first [done|by intros []]|]).
    all: by apply elem_of_nil in Hin.
  - unfold on_lm_end.
    destruct x as [x|]; cbn;
      destruct (traces self !! c) as [t|]; cbn;
      destruct (observations self !! c) as [ob|]; cbn.
    all: try (destruct Hnil as (new & ? & ? & ?); exists new; by split_and!).
    all: rewrite <- ?app_assoc; eexists; (split; [reflexivity|]); split.
    all: try (intros name id sid input Hin).
    all: try (intros Hx r Hin).
    all: repeat (apply elem_of_cons in Hin as [Hin|Hin];
                 [simplify_eq; cbn;
                  first [done|by intros []|by intros [?|?]]|]).
    all: by apply elem_of_nil in Hin.
Qed.

Lemma run_session self es :
  session_id (run self es) = session_id self.
Proof.
  induction es as [|e es IH] using rev_ind; [done|].
  rewrite run_snoc. by destruct (handle_frame (run self es) e) as (-> & _).
Qed.

(** X7.  Every trace belongs to the callback's session: after any
    sequence of events on a callback as [__init__] leaves it, each trace
    that was created carries the session id of the callback. *)
Theorem traces_carry_session (session : string) es :
  Forall (in_session session) (langfuse (run (init session) es)).
Proof.
  induction es as [|e es IH] using rev_ind; [constructor|].
  rewrite run_snoc.
  destruct (handle_session (run (init session) es) e)
    as (new & -> & Hsid & _).
  apply Forall_app. split; [done|]. apply Forall_forall.
  intros [name id sid input| | | |] Hin; cbn; try done.
  rewrite (Hsid _ _ _ _ Hin). apply run_session.
Qed.

(** X8.  No failure is reported that did not happen: when none of the
    end events in a sequence passes an exception, no request sent during
    the sequence closes an observation with level ["ERROR"] or with a
    status message. *)
Theorem no_exception_no_error self es :
  Forall (λ e, exception_of e = None) es →
  ∃ new, langfuse (run self es) = langfuse self ++ new
         ∧ Forall (λ r, ¬ reports_error r) new.
Proof.
  induction es as [|e es IH] using rev_ind.
  { intros _. exists []. split; [by rewrite app_nil_r|constructor]. }
  intros [Hes He]%Forall_app. rewrite Forall_singleton in He.
  destruct (IH Hes) as (new & Hnew & Hquiet). rewrite run_snoc.
  destruct (handle_session (run self es) e) as (more & -> & _ & Hmore).
  exists (new ++ more). rewrite Hnew, <- app_assoc. split; [done|].
  apply Forall_app. split; [done|]. apply Forall_forall. by apply Hmore.
Qed.
End session.

(** *** Scenarios *)

(** While the language model call ["c2"] starts and fails, the trace of
    the module call ["c1"] around it stays in place. *)
Lemma other_calls_untouched_witness :
  let started := on_module_start (init "dspy-1") None "c1" predict "question" in
  traces (run started failing_inner) !! "c1" = Some (TraceClient "c1")
  ∧ session_id (run started failing_inner) = "dspy-1".
Proof.
  intros started.
  destruct (other_calls_untouched started failing_inner "c1")
    as (Ht & _ & Hs & _).
  - by repeat constructor.
  - split; [by rewrite Ht|by rewrite Hs].
Defined.

(** A first call on a new callback leaves both dictionaries empty. *)
Lemma start_end_round_trip_witness :
  let self := init "dspy-1" in
  let m := on_module_end (on_module_start self None "c1" predict "question")
             "c1" None (Some (OtherError "timeout")) in
  let l := on_lm_end (on_lm_start self None "c1" predict "question")
             "c1" None (Some (OtherError "timeout")) in
  m.2 = None ∧ traces m.1 = ∅ ∧ observations m.1 = ∅
  ∧ l.2 = None ∧ traces l.1 = ∅ ∧ observations l.1 = ∅.
Proof.
  intros self.
  apply (start_end_round_trip self None "c1" predict "question" None None
           (Some (OtherError "timeout"))); reflexivity.
Defined.

(** The module call ["c1"] ends clean after the failed call ["c2"]. *)
Lemma call_ends_clean_witness :
  let self := init "dspy-1" in
  let m := on_module_end
             (run (on_module_start self None "c1" predict "question")
                failing_inner)
             "c1" None None in
  m.2 = None ∧ traces m.1 !! "c1" = None ∧ observations m.1 !! "c1" = None.
Proof.
  intros self.
  destruct (call_ends_clean self None "c1" predict "question" failing_inner
              None None None) as (? & ? & ? & _); [reflexivity..| |done].
  by repeat constructor.
Defined.

(** The language model call of a root module goes under its trace. *)
Lemma children_nest_witness :
  let m := on_module_start (init "dspy-1") None "c1" predict "question" in
  langfuse (on_lm_start m (Some "c1") "c2" language_model "prompt")
  = langfuse m ++ [generation (TraceClient "c1") "LM" "generation-c2"
                     "prompt" "gpt"].
Proof.
  intros m.
  destruct (children_nest (init "dspy-1") None "c1" predict "question"
              "c2" language_model "prompt") as (_ & Hlm & _);
    [reflexivity|exact Hlm].
Defined.

(** An LM end that carries the id of a running root module. *)
Lemma unmatched_lm_end_drops_trace_witness :
  let self := on_module_start (init "dspy-1") None "c1" predict "question" in
  let l := on_lm_end self "c1" (Some "answer") None in
  l.2 = Some (KeyError "c1")
  ∧ traces l.1 !! "c1" = None
  ∧ (on_module_end l.1 "c1" None None).2 = Some (KeyError "c1").
Proof.
  intros self.
  destruct (unmatched_lm_end_drops_trace self "c1" (TraceClient "c1")
              (Some "answer") None None None)
    as (Hraise & _ & Htraces & _ & Hend); [reflexivity..|].
  split_and!; [done| |by rewrite Hend].
  rewrite Htraces. apply lookup_delete_eq.
Defined.

(** A call in which nothing fails reports no failure. *)
Lemma no_exception_no_error_witness :
  ∃ new, langfuse (run (init "dspy-1") quiet_call) = new
         ∧ Forall (λ r, ¬ reports_error r) new.
Proof.
  destruct (no_exception_no_error (init "dspy-1") quiet_call)
    as (new & Hnew & Hquiet).
  - by repeat constructor.
  - exists new. split; [by rewrite Hnew|done].
Defined.
